(** * fwtools: the COFF container parser and the module-preamble extractor

    A shallow embedding of [fwtools/parsecoff.py] and [fwtools/extractcoff.py]
    (Python 2).  A Python [str] is a byte string and is modelled as
    [list byte]; Python integers are [Z]; a file object is its contents
    together with a cursor; an exception is a constructor of [exn] carried by
    the [outcome] monad.  The host is taken to be little-endian (the scripts'
    native-order [struct.unpack('II', ...)] and [struct.unpack('I', ...)] are
    decoded least-significant byte first, like the explicit ['<'] layouts). *)

From Stdlib Require Import ZArith Lia.
From Stdlib Require Import Strings.Byte.
From stdpp Require Import base tactics option list numbers strings pretty gmap sorting.

Local Open Scope Z_scope.

Abbreviation bytes := (list byte).

(** A string literal of the source, as a byte string. *)
Definition lit (s : string) : bytes := String.list_byte_of_string s.

#[global] Instance byte_eq_dec : EqDecision byte := Byte.byte_eq_dec.

#[global] Instance byte_countable : Countable byte :=
  inj_countable Byte.to_N Byte.of_N Byte.of_to_N.

(** ** Exceptions and outcomes *)

Inductive exn : Set :=
  | EOFError
  | IndexError
  | IOError
  | StructError
  | TypeError.

#[global] Instance exn_eq_dec : EqDecision exn.
Proof. solve_decision. Defined.

(** The result of running a piece of the script: a value, an exception that
    propagates to the caller, or exhaustion of the fuel given to a [while]
    loop. *)
Inductive outcome (A : Type) : Type :=
  | Ok (a : A)
  | Raise (e : exn)
  | OutOfFuel.
Arguments Ok {A} a.
Arguments Raise {A} e.
Arguments OutOfFuel {A}.

#[global] Instance outcome_ret : MRet outcome := @Ok.
#[global] Instance outcome_bind : MBind outcome := λ A B k m,
  match m with
  | Ok a => k a
  | Raise e => Raise e
  | OutOfFuel => OutOfFuel
  end.

(** ** File objects *)

Record file : Type := File { data : bytes; pos : nat }.

(** What is left between the cursor and the end of the file. *)
Definition rest (f : file) : bytes := drop (pos f) (data f).

Definition tell (f : file) : Z := Z.of_nat (pos f).

(** [f.read(size)]: the next [size] bytes; everything that is left when
    [size] is negative or no more than [size] bytes are left. *)
Definition read (size : Z) (f : file) : bytes * file :=
  let got :=
    if (size <? 0) || (Z.of_nat (length (rest f)) <=? size) then rest f
    else take (Z.to_nat size) (rest f) in
  (got, File (data f) (pos f + length got)).

(** [f.seek(offset, 0)]: a negative offset is refused with [IOError]. *)
Definition seek (offset : Z) (f : file) : outcome file :=
  if offset <? 0 then Raise IOError else Ok (File (data f) (Z.to_nat offset)).

(** ** The [struct] module *)

(** Format characters: [H] (u16), [L] (u32), [I] (u32), [B] (u8), [ns]. *)
Inductive fld : Set :=
  | fH
  | fL
  | fI
  | fB
  | fS (n : nat).

Definition fld_size (c : fld) : nat :=
  match c with
  | fH => 2
  | fL => 4
  | fI => 4
  | fB => 1
  | fS n => n
  end.

Definition fld_type (c : fld) : Type :=
  match c with
  | fS _ => bytes
  | _ => Z
  end.

Fixpoint calcsize (fmt : list fld) : nat :=
  match fmt with
  | [] => 0
  | c :: fmt => fld_size c + calcsize fmt
  end.

Fixpoint tuple_of (fmt : list fld) : Type :=
  match fmt with
  | [] => unit
  | c :: fmt => fld_type c * tuple_of fmt
  end.

(** An unsigned little-endian integer. *)
Fixpoint le_int (bs : bytes) : Z :=
  match bs with
  | [] => 0
  | x :: bs => Z.of_N (Byte.to_N x) + 256 * le_int bs
  end.

Definition unpack_fld (c : fld) (bs : bytes) : fld_type c :=
  match c with
  | fS n => take n bs
  | fH => le_int (take 2 bs)
  | fL => le_int (take 4 bs)
  | fI => le_int (take 4 bs)
  | fB => le_int (take 1 bs)
  end.

Fixpoint unpack_fields (fmt : list fld) (bs : bytes) : tuple_of fmt :=
  match fmt with
  | [] => tt
  | c :: fmt => (unpack_fld c bs, unpack_fields fmt (drop (fld_size c) bs))
  end.

(** [struct.unpack(fmt, s)] raises [struct.error] unless [len(s)] is the
    size of the format. *)
Definition unpack (fmt : list fld) (bs : bytes) : outcome (tuple_of fmt) :=
  if decide (length bs = calcsize fmt) then Ok (unpack_fields fmt bs)
  else Raise StructError.

(** A record class of the script: a named tuple with its [structfmt]. *)
Class StructType (T : Type) : Type := {
  structfmt : list fld;
  make : tuple_of structfmt → T
}.
Arguments structfmt T {_}.

Definition structlen (T : Type) `{StructType T} : nat := calcsize (structfmt T).

(** [s.rstrip('\x00')]: the string without its trailing null bytes. *)
Fixpoint rstrip0 (s : bytes) : bytes :=
  match s with
  | [] => []
  | c :: s =>
      match rstrip0 s with
      | [] => if decide (c = x00) then [] else [c]
      | t => c :: t
      end
  end.

(** [s.lstrip('\x00')] and [s.strip('\x00')]. *)
Fixpoint lstrip0 (s : bytes) : bytes :=
  match s with
  | [] => []
  | c :: t => if decide (c = x00) then lstrip0 t else s
  end.

Definition strip0 (s : bytes) : bytes := rstrip0 (lstrip0 s).

(** ** The record classes of [parsecoff.py] *)

Module FileHdr.
Record t : Type := Make {
  magic : Z; nscns : Z; timdat : Z; symptr : Z; nsyms : Z;
  opthdr : Z; flags : Z; target_id : Z
}.
(** ['<HHLLLHHH'] *)
#[global] Instance struct : StructType t := {
  structfmt := [fH; fH; fL; fL; fL; fH; fH; fH];
  make := λ '(a1, (a2, (a3, (a4, (a5, (a6, (a7, (a8, _)))))))),
    Make a1 a2 a3 a4 a5 a6 a7 a8
}.
End FileHdr.

Module OptHdr.
Record t : Type := Make {
  magic : Z; vstamp : Z; tsize : Z; dsize : Z; bsize : Z;
  entry : Z; text_start : Z; data_start : Z
}.
(** ['<HHLLLLLL'] *)
#[global] Instance struct : StructType t := {
  structfmt := [fH; fH; fL; fL; fL; fL; fL; fL];
  make := λ '(a1, (a2, (a3, (a4, (a5, (a6, (a7, (a8, _)))))))),
    Make a1 a2 a3 a4 a5 a6 a7 a8
}.
End OptHdr.

Module SecHdr.
Record t : Type := Make {
  orig_name : bytes; paddr : Z; vaddr : Z; size : Z; scnptr : Z;
  relptr : Z; lnnoptr : Z; nreloc : Z; nlnno : Z; flags : Z;
  reserved : Z; page : Z
}.
(** ['<8sLLLLLLLLLHH'] *)
#[global] Instance struct : StructType t := {
  structfmt := [fS 8; fL; fL; fL; fL; fL; fL; fL; fL; fL; fH; fH];
  make := λ '(a1, (a2, (a3, (a4, (a5, (a6, (a7, (a8, (a9, (a10,
             (a11, (a12, _)))))))))))),
    Make a1 a2 a3 a4 a5 a6 a7 a8 a9 a10 a11 a12
}.

Definition name (s : t) : bytes := rstrip0 (orig_name s).
End SecHdr.

Module RelocHdr.
Record t : Type := Make {
  vaddr : Z; symndx : Z; reserved : Z; type : Z
}.
(** ['<LLHH'] *)
#[global] Instance struct : StructType t := {
  structfmt := [fL; fL; fH; fH];
  make := λ '(a1, (a2, (a3, (a4, _)))), Make a1 a2 a3 a4
}.
End RelocHdr.

Module SymentHdr.
Record t : Type := Make {
  orig_name : bytes; value : Z; scnum : Z; type : Z; sclass : Z;
  numaux : Z
}.
(** ['<8sLHHBB'] *)
#[global] Instance struct : StructType t := {
  structfmt := [fS 8; fL; fH; fH; fB; fB];
  make := λ '(a1, (a2, (a3, (a4, (a5, (a6, _)))))),
    Make a1 a2 a3 a4 a5 a6
}.

(** The [name] property: [None] when the first word of the raw name is
    zero.  [struct.unpack('II', ...)] raises unless the field holds
    exactly eight bytes. *)
Definition name (s : t) : outcome (option bytes) :=
  '(w0, _) ← unpack [fI; fI] (orig_name s);
  if decide (w0 = 0) then Ok None else Ok (Some (rstrip0 (orig_name s))).

(** The [offset] property: [-1] when the name is inline. *)
Definition offset (s : t) : outcome Z :=
  '(w0, (w1, _)) ← unpack [fI; fI] (orig_name s);
  if decide (w0 ≠ 0) then Ok (-1) else Ok w1.
End SymentHdr.

(** ** Python sequences *)

(** [l[i]]: a negative index counts from the end; an index outside
    [-len(l) .. len(l) - 1] raises [IndexError]. *)
Definition getitem {A : Type} (l : list A) (i : Z) : outcome A :=
  let n := Z.of_nat (length l) in
  let j := if i <? 0 then i + n else i in
  if j <? 0 then Raise IndexError
  else match l !! Z.to_nat j with
       | Some x => Ok x
       | None => Raise IndexError
       end.

(** [sorted(l, key=...)]: a stable sort, here by insertion from the right. *)
Section sorted.
Context {A : Type} (key : A → Z).

Fixpoint insert_by (x : A) (l : list A) : list A :=
  match l with
  | [] => [x]
  | y :: l' => if key x <=? key y then x :: l else y :: insert_by x l'
  end.

Fixpoint sorted (l : list A) : list A :=
  match l with
  | [] => []
  | x :: l => insert_by x (sorted l)
  end.
End sorted.

(** ** class Coff *)

(** [Coff.readstruct] *)
Definition readstruct (T : Type) `{StructType T} (f : file) : outcome (T * file) :=
  let '(hdr, f) := read (Z.of_nat (structlen T)) f in
  if decide (length hdr ≠ structlen T) then Raise EOFError
  else t ← unpack (structfmt T) hdr; Ok (make t, f).

(** [[self.readstruct(T) for _ in range(n)]] *)
Fixpoint readstructs (T : Type) `{StructType T} (n : nat) (f : file)
    : outcome (list T * file) :=
  match n with
  | O => Ok ([], f)
  | S n =>
      '(x, f) ← readstruct T f;
      '(xs, f) ← readstructs T n f;
      Ok (x :: xs, f)
  end.

Record Coff : Type := MkCoff {
  f : file;
  filehdr : FileHdr.t;
  opthdr : option OptHdr.t;
  sechdr : list SecHdr.t;
  reloc : gmap bytes (list RelocHdr.t);
  symbols : list SymentHdr.t;
  strings : list (Z * bytes)
}.

(** The [for rs in relocsecs] loop of [Coff.__init__]. *)
Fixpoint read_relocs (relocsecs : list (bytes * Z * Z)) (f : file)
    (reloc : gmap bytes (list RelocHdr.t))
    : outcome (gmap bytes (list RelocHdr.t) * file) :=
  match relocsecs with
  | [] => Ok (reloc, f)
  | (rs0, rs1, rs2) :: relocsecs =>
      f ← seek rs1 f;
      '(l, f) ← readstructs RelocHdr.t (Z.to_nat rs2) f;
      read_relocs relocsecs f (<[rs0 := l]> reloc)
  end.

(** The inner [while b != '' and b != '\x00'] loop: the bytes up to the next
    null byte or the end of the file, and how many bytes the reads
    consumed (the null byte included). *)
Fixpoint read_cstring (r : bytes) : bytes * nat :=
  match r with
  | [] => ([], O)
  | c :: r =>
      if decide (c = x00) then ([], 1%nat)
      else let '(s, n) := read_cstring r in (c :: s, S n)
  end.

(** The [while True] loop that fills [self.strings]; [fuel] bounds the
    number of iterations. *)
Fixpoint read_strings (fuel : nat) (baseoff nstrs : Z) (f : file)
    (strings : list (Z * bytes)) : outcome (list (Z * bytes) * file) :=
  match fuel with
  | O => OutOfFuel
  | S fuel =>
      let off := tell f - baseoff in
      if off >=? nstrs then Ok (strings, f)
      else
        let '(s, n) := read_cstring (rest f) in
        read_strings fuel baseoff nstrs
          (File (data f) (pos f + n)) (strings ++ [(off, s)])
  end.

(** [[(s.name, s.relptr, s.nreloc) for s in self.sechdr if s.relptr != 0]] *)
Definition relocsecs (sechdr : list SecHdr.t) : list (bytes * Z * Z) :=
  (λ s, (SecHdr.name s, SecHdr.relptr s, SecHdr.nreloc s)) <$>
    filter (λ s, SecHdr.relptr s ≠ 0) sechdr.

(** [Coff.__init__], on an open file object. *)
Definition Coff_init (fuel : nat) (f : file) : outcome Coff :=
  '(filehdr, f) ← readstruct FileHdr.t f;
  '(opthdr, f) ←
    (if decide (FileHdr.opthdr filehdr ≠ 0)
     then '(o, f) ← readstruct OptHdr.t f; Ok (Some o, f)
     else Ok (None, f));
  '(sechdr, f) ← readstructs SecHdr.t (Z.to_nat (FileHdr.nscns filehdr)) f;
  '(reloc, f) ← read_relocs (relocsecs sechdr) f ∅;
  f ← seek (FileHdr.symptr filehdr) f;
  '(symbols, f) ← readstructs SymentHdr.t (Z.to_nat (FileHdr.nsyms filehdr)) f;
  let baseoff := tell f in
  let '(raw, f) := read 4 f in
  '(nstrs, _) ← unpack [fI] raw;
  '(strings, f) ← read_strings fuel baseoff nstrs f [];
  Ok (MkCoff f filehdr opthdr sechdr reloc symbols strings).

(** [Coff(path)]: the file is opened and read from its start.  No run of
    the string loop that ends takes more iterations than the file has
    bytes, plus the one that leaves the loop. *)
Definition Coff_open (contents : bytes) : outcome Coff :=
  Coff_init (S (length contents)) (File contents 0).

(** [Coff.sectiondata]; the file object of the container moves. *)
Fixpoint sectiondata_loop (secs : list SecHdr.t) (sname : bytes) (f : file)
    : outcome (option bytes * file) :=
  match secs with
  | [] => Ok (None, f)
  | s :: secs =>
      if decide (SecHdr.name s = sname) then
        f ← seek (SecHdr.scnptr s) f;
        let '(d, f) := read (SecHdr.size s) f in Ok (Some d, f)
      else sectiondata_loop secs sname f
  end.

Definition sectiondata (self : Coff) (sname : bytes)
    : outcome (option bytes * file) :=
  sectiondata_loop (sechdr self) sname (f self).

(** The [for smb in self.symbols] loop of [Coff.symboldata]. *)
Definition nextsymb_step (symbol : SymentHdr.t) (nextsymb : Z)
    (smb : SymentHdr.t) : Z :=
  if decide (SymentHdr.type smb ≠ 4) then nextsymb
  else if decide (SymentHdr.value smb > SymentHdr.value symbol
                  ∧ SymentHdr.value smb < nextsymb)
       then SymentHdr.value smb
       else nextsymb.

(** [Coff.symboldata] *)
Definition symboldata (self : Coff) (symbol : SymentHdr.t)
    : outcome (bytes * file) :=
  sec ← getitem (sechdr self) (SymentHdr.scnum symbol - 1);
  f ← seek (SecHdr.scnptr sec + SymentHdr.value symbol - SecHdr.vaddr sec)
        (f self);
  let nextsymb := foldl (nextsymb_step symbol) 0xffffffff (symbols self) in
  Ok (read (nextsymb - SymentHdr.value symbol) f).

(** ** The module-level script of [parsecoff.py] *)

(** What the script does to the outside world, in order. *)
Inductive event : Type :=
  | EvPrint (line : bytes)
  | EvOpen (path : bytes)
  | EvWrite (path : bytes) (d : bytes)
  | EvClose (path : bytes).

(** [sorted([s for s in coff.symbols if s.type == 4 and s.scnum == 2],
    key=itemgetter(1))] *)
Definition select (symbols : list SymentHdr.t) : list SymentHdr.t :=
  sorted SymentHdr.value
    (filter (λ s, SymentHdr.type s = 4 ∧ SymentHdr.scnum s = 2) symbols).

(** The [for off, st in coff.strings] loop. *)
Fixpoint scan_strings (strings : list (Z * bytes)) (s : SymentHdr.t)
    (name : option bytes) : outcome (option bytes) :=
  match strings with
  | [] => Ok name
  | (off, st) :: strings =>
      o ← SymentHdr.offset s;
      scan_strings strings s (if decide (off = o) then Some st else name)
  end.

(** The name of a symbol before the placeholder is considered, looked up in
    [coff.strings]. *)
Definition resolve_name (strings : list (Z * bytes)) (s : SymentHdr.t)
    : outcome (option bytes) :=
  n ← SymentHdr.name s;
  match n with
  | Some n => Ok (Some n)
  | None => scan_strings strings s None
  end.

(** ['unknown%i' % (idx)] *)
Definition unknown (idx : Z) : bytes := lit "unknown" ++ lit (pretty idx).

(** The last component of a path: what follows its last slash. *)
Fixpoint basename (path : bytes) : bytes :=
  match path with
  | [] => []
  | c :: p =>
      if decide (c = x2f) then basename p
      else if decide (x2f ∈ p) then basename p
      else path
  end.

(** [open(path, 'w')].  A path with a null byte is refused with
    [TypeError] before the system is asked; a path whose last component is
    empty, [.] or [..] names a directory (or nothing) and is refused with
    [IOError]; for any other path the file system decides: [fs path] tells
    whether the file can be created or truncated there (the directory
    exists, it is writable, the name is not too long, ...), and a refusal
    is an [IOError]. *)
Definition open_w (fs : bytes → bool) (path : bytes) : outcome unit :=
  if decide (x00 ∈ path) then Raise TypeError
  else if decide (basename path ∈ [[]; lit "."; lit ".."]) then Raise IOError
  else if fs path then Ok () else Raise IOError.

(** The [for s in symbols] loop, in the file system [fs]; the events are
    those that happened before the loop ended or an exception left it. *)
Fixpoint extract_loop (fs : bytes → bool) (coff : Coff)
    (syms : list SymentHdr.t) (idx : Z) : list event * outcome unit :=
  match syms with
  | [] => ([], Ok ())
  | s :: syms =>
      match resolve_name (strings coff) s with
      | Ok name =>
          let '(name, idx) :=
            match name with
            | Some n => (n, idx)
            | None => (unknown idx, idx + 1)
            end in
          let path := lit "func/" ++ name in
          let line := EvPrint (lit "Doing symbol " ++ name) in
          match open_w fs path with
          | Ok _ =>
              match symboldata coff s with
              | Ok (d, f) =>
                  let coff :=
                    MkCoff f (filehdr coff) (opthdr coff) (sechdr coff)
                      (reloc coff) (symbols coff) (strings coff) in
                  let '(evs, r) := extract_loop fs coff syms idx in
                  ([line; EvOpen path; EvWrite path d; EvClose path] ++ evs, r)
              | Raise e => ([line; EvOpen path], Raise e)
              | OutOfFuel => ([line; EvOpen path], OutOfFuel)
              end
          | Raise e => ([line], Raise e)
          | OutOfFuel => ([line], OutOfFuel)
          end
      | Raise e => ([], Raise e)
      | OutOfFuel => ([], OutOfFuel)
      end
  end.

(** The whole script, run in the file system [fs] on the contents of the
    file [sys.argv[1]]. *)
Definition parsecoff (fs : bytes → bool) (contents : bytes)
    : list event * outcome unit :=
  match Coff_open contents with
  | Ok coff => extract_loop fs coff (select (symbols coff)) 1
  | Raise e => ([], Raise e)
  | OutOfFuel => ([], OutOfFuel)
  end.

(** ** [extractcoff.py] *)

(** How a run of the script ends: [sys.exit(code)] or falling off the end
    (code 0), an uncaught exception, or not at all. *)
Inductive status : Type :=
  | Exited (code : Z)
  | Uncaught (e : exn)
  | Unfinished.

(** A run: the lines printed, the contents written to the output path
    ([None] when the script never opened it), and how it ended. *)
Record run : Type := Run {
  stdout : list bytes;
  output : option bytes;
  result : status
}.

(** [s[i:j]] for [0 <= i <= j]. *)
Definition slice (s : bytes) (i j : nat) : bytes := take (j - i) (drop i s).

(** ['%i' % (ord(c))] *)
Definition ord_str (c : byte) : bytes := lit (pretty (Z.of_N (Byte.to_N c))).

(** [[ '%i' % (ord(header[i])) for i in xrange(60, 64) ]] *)
Fixpoint version_parts (header : bytes) (indices : list Z) : outcome (list bytes) :=
  match indices with
  | [] => Ok []
  | i :: indices =>
      c ← getitem header i;
      ps ← version_parts header indices;
      Ok (ord_str c :: ps)
  end.

(** ['.'.join(parts)] *)
Fixpoint join_dot (parts : list bytes) : bytes :=
  match parts with
  | [] => []
  | [p] => p
  | p :: parts => p ++ lit "." ++ join_dot parts
  end.

Definition extractcoff (contents : bytes) : run :=
  let f := File contents 0 in
  let '(header, f) := read 128 f in
  if decide (take 4 header ≠ lit "MTCH") then
    Run [lit "Invalid MTC file!"] None (Exited 1)
  else
    let line1 := lit "Module name: " ++ strip0 (slice header 44 59) in
    match version_parts header [60; 61; 62; 63] with
    | Ok parts =>
        let line2 := lit "Module version: " ++ join_dot parts in
        let line3 := lit "Module description: " ++ strip0 (slice header 64 96) in
        let '(d, f) := read (-1) f in
        Run [line1; line2; line3] (Some d) (Exited 0)
    | Raise e => Run [line1] None (Uncaught e)
    | OutOfFuel => Run [line1] None Unfinished
    end.

(** ** What the decoding loops compute *)

(** The record of class [T] whose bytes start [off] bytes into [d]. *)
Definition record_at (T : Type) `{StructType T} (d : bytes) (off : nat) : T :=
  make (unpack_fields (structfmt T) (take (structlen T) (drop off d))).

(** [n] consecutive records of class [T] at the start of [d]. *)
Fixpoint records (T : Type) `{StructType T} (n : nat) (d : bytes) : list T :=
  match n with
  | O => []
  | S n => record_at T d 0 :: records T n (drop (structlen T) d)
  end.

(** The relocation table that an entry [(name, relptr, nreloc)] of
    [relocsecs] points at, and whether the file holds all of it. *)
Definition reloc_table (d : bytes) (rs : bytes * Z * Z) : list RelocHdr.t :=
  records RelocHdr.t (Z.to_nat rs.2) (drop (Z.to_nat rs.1.2) d).

Definition reloc_complete (d : bytes) (rs : bytes * Z * Z) : Prop :=
  (Z.to_nat rs.2 * structlen RelocHdr.t ≤ length (drop (Z.to_nat rs.1.2) d))%nat.

#[global] Instance reloc_complete_dec d rs : Decision (reloc_complete d rs).
Proof. unfold reloc_complete. apply _. Defined.

(** The dictionary after the assignments [self.reloc[name] = table], in
    order. *)
Definition reloc_store (d : bytes) (m : gmap bytes (list RelocHdr.t))
    (rs : bytes * Z * Z) : gmap bytes (list RelocHdr.t) :=
  <[rs.1.1 := reloc_table d rs]> m.

(** Where the cursor stands after the tables have been read. *)
Definition reloc_cursor (p : nat) (rs : bytes * Z * Z) : nat :=
  Z.to_nat rs.1.2 + Z.to_nat rs.2 * structlen RelocHdr.t.

(** The layout of a container that starts at the cursor of [f]: the file
    header, the size of the headers before the section table, the section
    table, the symbol table and the offset of the string table. *)
Definition layout_filehdr (f : file) : FileHdr.t := record_at FileHdr.t (rest f) 0.

Definition layout_opthdr (f : file) : option OptHdr.t :=
  if decide (FileHdr.opthdr (layout_filehdr f) ≠ 0)
  then Some (record_at OptHdr.t (rest f) (structlen FileHdr.t))
  else None.

Definition layout_hdrsize (f : file) : nat :=
  structlen FileHdr.t +
  (if decide (FileHdr.opthdr (layout_filehdr f) ≠ 0) then structlen OptHdr.t else 0).

Definition layout_nscns (f : file) : nat := Z.to_nat (FileHdr.nscns (layout_filehdr f)).
Definition layout_nsyms (f : file) : nat := Z.to_nat (FileHdr.nsyms (layout_filehdr f)).
Definition layout_symptr (f : file) : nat := Z.to_nat (FileHdr.symptr (layout_filehdr f)).

Definition layout_sechdr (f : file) : list SecHdr.t :=
  records SecHdr.t (layout_nscns f) (drop (layout_hdrsize f) (rest f)).

Definition layout_symbols (f : file) : list SymentHdr.t :=
  records SymentHdr.t (layout_nsyms f) (drop (layout_symptr f) (data f)).

Definition layout_strtab (f : file) : nat :=
  layout_symptr f + layout_nsyms f * structlen SymentHdr.t.

(** No record that the parse decodes is cut short by the end of the file:
    the headers and the section table, every relocation table of a section
    with a non-zero [relptr], and the symbol table. *)
Definition complete (f : file) : Prop :=
  (layout_hdrsize f + layout_nscns f * structlen SecHdr.t ≤ length (rest f))%nat
  ∧ Forall (reloc_complete (data f)) (relocsecs (layout_sechdr f))
  ∧ (layout_nsyms f * structlen SymentHdr.t
       ≤ length (drop (layout_symptr f) (data f)))%nat.

#[global] Instance complete_dec f : Decision (complete f).
Proof. unfold complete. apply _. Defined.

(** The string table of a container whose records are all there. *)
Definition parse_strings (fuel : nat) (f : file) : outcome Coff :=
  let f5 := File (data f) (layout_strtab f) in
  let '(raw, f6) := read 4 f5 in
  '(nstrs, _) ← unpack [fI] raw;
  '(strings, f7) ← read_strings fuel (tell f5) nstrs f6 [];
  Ok (MkCoff f7 (layout_filehdr f) (layout_opthdr f) (layout_sechdr f)
        (foldl (reloc_store (data f)) ∅ (relocsecs (layout_sechdr f)))
        (layout_symbols f) strings).

(** ** The span boundary, in the words of the specification *)

(** The values of the function symbols (type 4) of the whole table that
    are strictly greater than [v]. *)
Definition higher_functions (symbols : list SymentHdr.t) (v : Z) : list Z :=
  filter (λ x, v < x)
    (SymentHdr.value <$> filter (λ s, SymentHdr.type s = 4) symbols).

(** Their minimum, or the sentinel [0xffffffff] when there is none. *)
Definition boundary (symbols : list SymentHdr.t) (v : Z) : Z :=
  match higher_functions symbols v with
  | [] => 0xffffffff
  | x :: xs => foldr Z.min x xs
  end.

(** ** The names the driver hands out, in the words of the specification *)

(** A symbol has no name of its own: neither inline nor in the string
    table. *)
Definition unresolved (strs : list (Z * bytes)) (s : SymentHdr.t) : bool :=
  match resolve_name strs s with
  | Ok None => true
  | _ => false
  end.

(** The name of [s] when the symbols [before] were handled before it and
    the counter started at [idx]: its own name, or the placeholder numbered
    by the placeholders handed out so far. *)
Definition name_at (strs : list (Z * bytes)) (idx : Z)
    (before : list SymentHdr.t) (s : SymentHdr.t) : bytes :=
  match resolve_name strs s with
  | Ok (Some n) => n
  | _ => unknown (idx + Z.of_nat (length (filter (λ x, unresolved strs x) before)))
  end.

Definition names_from (strs : list (Z * bytes)) (idx : Z)
    (syms : list SymentHdr.t) : list bytes :=
  imap (λ j s, name_at strs idx (take j syms) s) syms.

(** What a run printed, which files it opened and which it wrote. *)
Definition printed (evs : list event) : list bytes :=
  omap (λ e, match e with EvPrint l => Some l | _ => None end) evs.

Definition opened (evs : list event) : list bytes :=
  omap (λ e, match e with EvOpen p => Some p | _ => None end) evs.

Definition written (evs : list event) : list bytes :=
  omap (λ e, match e with EvWrite p _ => Some p | _ => None end) evs.

(** ** Sample inputs *)

(** [struct.pack], to write the sample files below. *)
Definition byte_of (z : Z) : byte := default x00 (Byte.of_N (Z.to_N (z mod 256))).

Fixpoint le_bytes (n : nat) (v : Z) : bytes :=
  match n with
  | O => []
  | S n => byte_of v :: le_bytes n (v / 256)
  end.

Definition pack_fld (c : fld) : fld_type c → bytes :=
  match c with
  | fS n => λ s, take n (s ++ replicate n x00)
  | fH => le_bytes 2
  | fL => le_bytes 4
  | fI => le_bytes 4
  | fB => le_bytes 1
  end.

Fixpoint pack (fmt : list fld) : tuple_of fmt → bytes :=
  match fmt with
  | [] => λ _, []
  | c :: fmt => λ t, pack_fld c t.1 ++ pack fmt t.2
  end.

Definition pack_filehdr (nscns symptr nsyms opthdr : Z) : bytes :=
  pack (structfmt FileHdr.t) (0x108, (nscns, (0, (symptr, (nsyms, (opthdr, (0, (0, ())))))))).

Definition pack_sechdr (name : string) (vaddr size scnptr relptr nreloc : Z) : bytes :=
  pack (structfmt SecHdr.t)
    (lit name, (vaddr, (vaddr, (size, (scnptr, (relptr, (0, (nreloc,
       (0, (0, (0, (0, ())))))))))))).

Definition pack_reloc (vaddr symndx type : Z) : bytes :=
  pack (structfmt RelocHdr.t) (vaddr, (symndx, (0, (type, ())))).

Definition pack_syment (orig_name : bytes) (value scnum type : Z) : bytes :=
  pack (structfmt SymentHdr.t) (orig_name, (value, (scnum, (type, (2, (0, ())))))).

(** The string table of the specification's example: the length 10, then
    [foo\0bar\0\0\0]. *)
Definition strtab_example : bytes :=
  le_bytes 4 10 ++ lit "foo" ++ [x00] ++ lit "bar" ++ [x00; x00; x00].

(** A file with no section and no symbol and that string table. *)
Definition sample_strtab : bytes := pack_filehdr 0 22 0 0 ++ strtab_example.

(** A container with three sections, two of them named [.text] and each
    with a relocation table, a third whose data lies past the end of the
    file, five symbols and a string table with one name. *)
Definition sample_text1 : bytes := le_bytes 16 0x0f0e0d0c0b0a09080706050403020100.
Definition sample_text2 : bytes :=
  le_bytes 32 0x3f3e3d3c3b3a393837363534333231302f2e2d2c2b2a29282726252423222120.

Definition sample_coff : bytes :=
  pack_filehdr 3 250 5 0
  ++ pack_sechdr ".text" 0x1000 16 166 214 1
  ++ pack_sechdr ".text" 0x2000 32 182 226 2
  ++ pack_sechdr ".bss" 0x1000 256 360 0 0
  ++ sample_text1
  ++ sample_text2
  ++ pack_reloc 0x1004 3 1
  ++ pack_reloc 0x2004 0 1 ++ pack_reloc 0x2014 1 2
  ++ pack_syment (lit "main") 0x2010 2 4
  ++ pack_syment (le_bytes 4 0 ++ le_bytes 4 4) 0x2000 2 4
  ++ pack_syment (le_bytes 4 0 ++ le_bytes 4 99) 0x2008 2 4
  ++ pack_syment (lit "ext") 0x1004 0 4
  ++ pack_syment (lit "var") 0x2004 2 0
  ++ le_bytes 4 23 ++ lit "long_function_name" ++ [x00].

(** ** What the driver does for one symbol *)





(** The container of the sample file (an empty container if it did not
    parse). *)
Definition sample_container : Coff :=
  match Coff_open sample_coff with
  | Ok c => c
  | _ => MkCoff (File sample_coff 0) (FileHdr.Make 0 0 0 0 0 0 0 0) None [] ∅ [] []
  end.

(** ** Further samples and layouts *)

(** Entries of a string table laid end to end in [d] from position [p] on,
    with offsets counted from position [b]: each string is the bytes at its
    position, holds no null byte, is followed by a null byte (the last one
    possibly by the end of the file instead), and the next entry starts
    right after that null byte. *)
Fixpoint string_chain (d : bytes) (b p : nat) (es : list (Z * bytes)) : Prop :=
  match es with
  | [] => True
  | (off, s) :: es =>
      off = Z.of_nat p - Z.of_nat b
      ∧ (x00 ∉ s)
      ∧ take (length s) (drop p d) = s
      ∧ match es with
        | [] => drop p d !! length s = Some x00 ∨ drop p d !! length s = None
        | _ :: _ => drop p d !! length s = Some x00
        end
      ∧ string_chain d b (p + length s + 1) es
  end.

(** A file whose string table announces 100 bytes and holds none. *)
Definition sample_hang : bytes := pack_filehdr 0 22 0 0 ++ le_bytes 4 100.

Definition sample_module : bytes :=
  lit "MTCH" ++ replicate 40 x00 ++ lit "demo" ++ replicate 12 x00
  ++ [x01; x02; x03; x0a] ++ lit "a test module" ++ replicate 19 x00
  ++ replicate 32 x00 ++ lit "payload".

(** A container with a single section and one function symbol that says it
    lives in section 2. *)
Definition sample_one_section : bytes :=
  pack_filehdr 1 74 1 0
  ++ pack_sechdr ".text" 0x1000 4 70 0 0
  ++ le_bytes 4 0x03020100
  ++ pack_syment (lit "f") 0x1000 2 4
  ++ le_bytes 4 4.

(** ** Tactics *)

(** Bounds a decoded integer field, given the lemma [bound] that bounds
    [le_int (take n l)]. *)
Ltac field_range bound :=
  intros; unfold record_at; cbn;
  match goal with
  | |- context [le_int (take ?n ?l)] =>
      pose proof (bound n l); cbn in *; lia
  end.

(* ================================================================== *)
(** * Properties *)

(** ** The outcome monad *)

Lemma bind_Ok {A B : Type} (m : outcome A) (k : A → outcome B) (y : B) :
  m ≫= k = Ok y ↔ ∃ a, m = Ok a ∧ k a = Ok y.
Proof.
  destruct m as [a| |]; simpl; split; intros Hm; try discriminate; eauto;
    destruct Hm as (a' & Ha & Hk); congruence.
Qed.

Lemma bind_Raise {A B : Type} (m : outcome A) (k : A → outcome B) (e : exn) :
  m ≫= k = Raise e ↔ m = Raise e ∨ ∃ a, m = Ok a ∧ k a = Raise e.
Proof.
  destruct m as [a| |]; simpl; split; intros Hm; try discriminate.
  - right. eauto.
  - destruct Hm as [Hm|(a' & Ha & Hk)]; congruence.
  - left. congruence.
  - destruct Hm as [Hm|(a' & Ha & Hk)]; congruence.
  - destruct Hm as [Hm|(a' & Ha & Hk)]; congruence.
Qed.

(** ** Reading from a file *)

Lemma rest_advance (d : bytes) (p k : nat) :
  rest (File d (p + k)) = drop k (rest (File d p)).
Proof. unfold rest. simpl. rewrite drop_drop. reflexivity. Qed.

Lemma read_nat (n : nat) (f : file) :
  read (Z.of_nat n) f =
    (take n (rest f), File (data f) (pos f + Nat.min n (length (rest f)))).
Proof.
  unfold read.
  destruct (Z.ltb_spec (Z.of_nat n) 0) as [Hn|_]; [lia|]. cbn [orb].
  destruct (Z.leb_spec (Z.of_nat (length (rest f))) (Z.of_nat n)) as [Hle|Hgt].
  - rewrite take_ge by lia. rewrite Nat.min_r by lia. reflexivity.
  - rewrite Nat2Z.id, length_take. reflexivity.
Qed.

Lemma unpack_exact (fmt : list fld) (bs : bytes) :
  length bs = calcsize fmt → unpack fmt bs = Ok (unpack_fields fmt bs).
Proof. intros Hlen. unfold unpack. rewrite decide_True by exact Hlen. reflexivity. Qed.

(** [readstruct] decodes the record under the cursor and moves past it, or
    raises [EOFError] when the file ends before the record does. *)
Lemma readstruct_eq (T : Type) `{StructType T} (f : file) :
  readstruct T f =
    if decide (structlen T ≤ length (rest f))%nat
    then Ok (record_at T (rest f) 0, File (data f) (pos f + structlen T))
    else Raise EOFError.
Proof.
  unfold readstruct. rewrite read_nat. cbv beta iota zeta.
  rewrite length_take.
  destruct (decide (structlen T ≤ length (rest f))%nat) as [Hle|Hgt].
  - rewrite Nat.min_l by exact Hle.
    destruct (decide (structlen T ≠ structlen T)) as [Hne|_]; [congruence|].
    rewrite unpack_exact.
    + reflexivity.
    + rewrite length_take. unfold structlen in Hle |- *. lia.
  - rewrite decide_True by lia. reflexivity.
Qed.

Lemma readstructs_eq (T : Type) `{StructType T} (n : nat) (f : file) :
  readstructs T n f =
    if decide (n * structlen T ≤ length (rest f))%nat
    then Ok (records T n (rest f), File (data f) (pos f + n * structlen T))
    else Raise EOFError.
Proof.
  revert f. induction n as [|n IH]; intros [d p].
  - cbn [readstructs records]. rewrite decide_True by lia.
    rewrite Nat.mul_0_l, Nat.add_0_r. reflexivity.
  - cbn [readstructs]. rewrite readstruct_eq.
    destruct (decide (structlen T ≤ length (rest (File d p)))%nat) as [Hle|Hgt].
    + cbn [mbind outcome_bind data pos]. rewrite IH.
      rewrite rest_advance, length_drop. cbn [data pos].
      destruct (decide (n * structlen T ≤ length (rest (File d p)) - structlen T)%nat)
        as [Hn|Hn].
      * rewrite decide_True by lia. cbn [mbind outcome_bind records].
        do 3 f_equal. lia.
      * rewrite decide_False by lia. reflexivity.
    + rewrite decide_False by lia. reflexivity.
Qed.

Lemma length_records (T : Type) `{StructType T} (n : nat) (d : bytes) :
  length (records T n d) = n.
Proof. revert d. induction n as [|n IH]; intros d; simpl; [|rewrite IH]; reflexivity. Qed.

Lemma lookup_records (T : Type) `{StructType T} (n i : nat) (d : bytes) :
  (i < n)%nat →
  records T n d !! i = Some (record_at T d (i * structlen T)).
Proof.
  revert i d. induction n as [|n IH]; intros i d Hi; [lia|].
  destruct i as [|i]; simpl.
  - reflexivity.
  - rewrite IH by lia. unfold record_at. rewrite drop_drop. reflexivity.
Qed.

(** ** Decoded fields stay within their widths *)

Lemma le_int_range (bs : bytes) : 0 ≤ le_int bs < 256 ^ Z.of_nat (length bs).
Proof.
  induction bs as [|x bs IH].
  - simpl. lia.
  - cbn [le_int length]. rewrite Nat2Z.inj_succ, Z.pow_succ_r by lia.
    pose proof (Byte.to_N_bounded x) as Hx.
    assert (0 ≤ Z.of_N (Byte.to_N x) ≤ 255) by lia.
    lia.
Qed.

Lemma le_int_take (n : nat) (bs : bytes) :
  0 ≤ le_int (take n bs) < 256 ^ Z.of_nat n.
Proof.
  pose proof (le_int_range (take n bs)) as [H0 Hlt].
  split; [exact H0|].
  eapply Z.lt_le_trans; [exact Hlt|].
  apply Z.pow_le_mono_r; [lia|].
  rewrite length_take. lia.
Qed.

Lemma FileHdr_nscns_range (d : bytes) (off : nat) :
  0 ≤ FileHdr.nscns (record_at FileHdr.t d off) < 2 ^ 16.
Proof. field_range le_int_take. Qed.

Lemma FileHdr_symptr_range (d : bytes) (off : nat) :
  0 ≤ FileHdr.symptr (record_at FileHdr.t d off) < 2 ^ 32.
Proof. field_range le_int_take. Qed.

Lemma FileHdr_nsyms_range (d : bytes) (off : nat) :
  0 ≤ FileHdr.nsyms (record_at FileHdr.t d off) < 2 ^ 32.
Proof. field_range le_int_take. Qed.

Lemma SecHdr_scnptr_range (d : bytes) (off : nat) :
  0 ≤ SecHdr.scnptr (record_at SecHdr.t d off) < 2 ^ 32.
Proof. field_range le_int_take. Qed.

Lemma SecHdr_size_range (d : bytes) (off : nat) :
  0 ≤ SecHdr.size (record_at SecHdr.t d off) < 2 ^ 32.
Proof. field_range le_int_take. Qed.

Lemma SecHdr_relptr_range (d : bytes) (off : nat) :
  0 ≤ SecHdr.relptr (record_at SecHdr.t d off) < 2 ^ 32.
Proof. field_range le_int_take. Qed.

Lemma SecHdr_nreloc_range (d : bytes) (off : nat) :
  0 ≤ SecHdr.nreloc (record_at SecHdr.t d off) < 2 ^ 32.
Proof. field_range le_int_take. Qed.

Lemma SymentHdr_value_range (d : bytes) (off : nat) :
  0 ≤ SymentHdr.value (record_at SymentHdr.t d off) < 2 ^ 32.
Proof. field_range le_int_take. Qed.

Lemma SymentHdr_scnum_range (d : bytes) (off : nat) :
  0 ≤ SymentHdr.scnum (record_at SymentHdr.t d off) < 2 ^ 16.
Proof. field_range le_int_take. Qed.

Lemma SymentHdr_orig_name_length (d : bytes) (off : nat) :
  (off + structlen SymentHdr.t ≤ length d)%nat →
  length (SymentHdr.orig_name (record_at SymentHdr.t d off)) = 8%nat.
Proof.
  intros Hlen. unfold record_at. cbn in *.
  rewrite !length_take, length_drop. lia.
Qed.

(** Every element of a decoded table is the record at some offset. *)
Lemma elem_of_records (T : Type) `{StructType T} (n : nat) (d : bytes) (x : T) :
  x ∈ records T n d → ∃ i, (i < n)%nat ∧ x = record_at T d (i * structlen T).
Proof.
  intros (i & Hi)%list_elem_of_lookup.
  assert (i < n)%nat as Hlt.
  { apply lookup_lt_Some in Hi. rewrite length_records in Hi. exact Hi. }
  rewrite lookup_records in Hi by exact Hlt.
  exists i. split; [exact Hlt|congruence].
Qed.

(** ** The relocation loop *)

Lemma seek_nonneg (p : Z) (f : file) :
  0 ≤ p → seek p f = Ok (File (data f) (Z.to_nat p)).
Proof.
  intros Hp. unfold seek.
  destruct (Z.ltb_spec p 0) as [Hlt|_]; [lia|reflexivity].
Qed.

Lemma read_relocs_eq (rs : list (bytes * Z * Z)) (f : file)
    (m : gmap bytes (list RelocHdr.t)) :
  Forall (λ r, 0 ≤ r.1.2) rs →
  read_relocs rs f m =
    if decide (Forall (reloc_complete (data f)) rs)
    then Ok (foldl (reloc_store (data f)) m rs,
             File (data f) (foldl reloc_cursor (pos f) rs))
    else Raise EOFError.
Proof.
  revert f m. induction rs as [|[[n p] k] rs IH]; intros [d q] m Hpos.
  - cbn [read_relocs foldl data pos].
    rewrite decide_True by constructor. reflexivity.
  - apply Forall_cons in Hpos as [Hp Hpos]. cbn [fst snd] in Hp.
    cbn [read_relocs]. rewrite seek_nonneg by exact Hp.
    cbn [mbind outcome_bind data pos]. rewrite readstructs_eq.
    unfold rest at 1. cbn [data pos].
    destruct (decide (Z.to_nat k * structlen RelocHdr.t
                      ≤ length (drop (Z.to_nat p) d))%nat) as [Hk|Hk].
    + cbn [mbind outcome_bind]. rewrite IH by exact Hpos. cbn [data pos].
      destruct (decide (Forall (reloc_complete d) rs)) as [Hrs|Hrs].
      * rewrite decide_True by (constructor; assumption). reflexivity.
      * rewrite decide_False; [reflexivity|].
        intros [_ ?]%Forall_cons. contradiction.
    + cbn [mbind outcome_bind].
      rewrite decide_False; [reflexivity|].
      intros [? _]%Forall_cons. contradiction.
Qed.

(** ** The container parser, step by step *)

Lemma relocsecs_nonneg (n : nat) (d : bytes) :
  Forall (λ r, 0 ≤ r.1.2) (relocsecs (records SecHdr.t n d)).
Proof.
  apply Forall_forall. intros r Hr.
  unfold relocsecs in Hr.
  apply list_elem_of_fmap in Hr as (s & -> & Hs).
  apply list_elem_of_filter in Hs as [_ Hs].
  apply elem_of_records in Hs as (i & _ & ->).
  cbn [fst snd]. apply SecHdr_relptr_range.
Qed.

(** [Coff.__init__] raises [EOFError] unless the container is complete, and
    then goes on to the string table. *)
Lemma opthdr_step_eq (f : file) :
  (structlen FileHdr.t ≤ length (rest f))%nat →
  (if decide (FileHdr.opthdr (layout_filehdr f) ≠ 0)
   then '(o, f1) ← readstruct OptHdr.t
                      (File (data f) (pos f + structlen FileHdr.t));
        Ok (Some o, f1)
   else Ok (None, File (data f) (pos f + structlen FileHdr.t))) =
  if decide (layout_hdrsize f ≤ length (rest f))%nat
  then Ok (layout_opthdr f, File (data f) (pos f + layout_hdrsize f))
  else Raise EOFError.
Proof.
  intros Hhdr. unfold layout_hdrsize, layout_opthdr.
  destruct (decide (FileHdr.opthdr (layout_filehdr f) ≠ 0)) as [Ho|Ho].
  - rewrite readstruct_eq. destruct f as [d p]. cbn [data pos].
    rewrite rest_advance, length_drop.
    destruct (decide (structlen OptHdr.t
                      ≤ length (rest (File d p)) - structlen FileHdr.t)%nat)
      as [Hle|Hgt].
    + rewrite decide_True by lia. cbn [mbind outcome_bind].
      unfold record_at. rewrite drop_drop, !Nat.add_0_r, Nat.add_assoc.
      reflexivity.
    + rewrite decide_False by lia. reflexivity.
  - rewrite decide_True by lia. rewrite Nat.add_0_r. reflexivity.
Qed.

Lemma Coff_init_eq (fuel : nat) (f : file) :
  Coff_init fuel f =
    if decide (complete f) then parse_strings fuel f else Raise EOFError.
Proof.
  unfold Coff_init. rewrite readstruct_eq.
  destruct (decide (structlen FileHdr.t ≤ length (rest f))%nat) as [Hhdr|Hhdr].
  2:{ rewrite decide_False; [reflexivity|].
      intros (Hc & _). unfold layout_hdrsize in Hc. lia. }
  cbn [mbind outcome_bind]. fold (layout_filehdr f).
  rewrite (opthdr_step_eq f Hhdr).
  destruct (decide (layout_hdrsize f ≤ length (rest f))%nat) as [Hopt|Hopt].
  2:{ rewrite decide_False; [reflexivity|]. intros (Hc & _). lia. }
  cbn [mbind outcome_bind]. rewrite readstructs_eq.
  fold (layout_nscns f).
  destruct f as [d p]. cbn [data pos]. rewrite rest_advance, length_drop.
  fold (layout_sechdr (File d p)).
  destruct (decide (layout_nscns (File d p) * structlen SecHdr.t
                    ≤ length (rest (File d p)) - layout_hdrsize (File d p))%nat)
    as [Hsec|Hsec].
  2:{ rewrite decide_False; [reflexivity|]. intros (Hc & _). lia. }
  cbn [mbind outcome_bind].
  rewrite read_relocs_eq by apply relocsecs_nonneg.
  cbn [data pos].
  destruct (decide (Forall (reloc_complete d)
                      (relocsecs (layout_sechdr (File d p))))) as [Hrel|Hrel].
  2:{ rewrite decide_False; [reflexivity|]. intros (_ & Hc & _). contradiction. }
  cbn [mbind outcome_bind].
  rewrite seek_nonneg by apply FileHdr_symptr_range.
  cbn [mbind outcome_bind data pos]. rewrite readstructs_eq.
  fold (layout_nsyms (File d p)) (layout_symptr (File d p)).
  unfold rest at 1 2. cbn [data pos].
  fold (layout_symbols (File d p)).
  destruct (decide (layout_nsyms (File d p) * structlen SymentHdr.t
                    ≤ length (drop (layout_symptr (File d p)) d))%nat)
    as [Hsym|Hsym].
  2:{ rewrite decide_False; [reflexivity|]. intros (_ & _ & Hc). contradiction. }
  cbn [mbind outcome_bind].
  rewrite decide_True.
  2:{ split; [lia|]. split; assumption. }
  reflexivity.
Qed.

Lemma read_strings_data (fuel : nat) (baseoff nstrs : Z) (f f' : file)
    (acc out : list (Z * bytes)) :
  read_strings fuel baseoff nstrs f acc = Ok (out, f') → data f' = data f.
Proof.
  revert f acc. induction fuel as [|fuel IH]; intros f acc; cbn [read_strings].
  - discriminate.
  - destruct (tell f - baseoff >=? nstrs).
    + intros [= _ <-]. reflexivity.
    + destruct (read_cstring (rest f)) as [s n]. intros Hrec.
      apply IH in Hrec. exact Hrec.
Qed.

(** What a successful parse has built. *)
Lemma Coff_init_Ok (fuel : nat) (f0 : file) (c : Coff) :
  Coff_init fuel f0 = Ok c →
  complete f0
  ∧ filehdr c = layout_filehdr f0
  ∧ opthdr c = layout_opthdr f0
  ∧ sechdr c = layout_sechdr f0
  ∧ reloc c = foldl (reloc_store (data f0)) ∅ (relocsecs (layout_sechdr f0))
  ∧ symbols c = layout_symbols f0
  ∧ data (f c) = data f0
  ∧ (4 ≤ length (drop (layout_strtab f0) (data f0)))%nat
  ∧ read_strings fuel (Z.of_nat (layout_strtab f0))
      (le_int (take 4 (drop (layout_strtab f0) (data f0))))
      (File (data f0) (layout_strtab f0 + 4)) [] = Ok (strings c, f c).
Proof.
  rewrite Coff_init_eq.
  destruct (decide (complete f0)) as [Hc|Hc]; [|discriminate].
  unfold parse_strings. change 4 with (Z.of_nat 4). rewrite read_nat.
  unfold rest, tell. cbn [data pos].
  set (tab := drop (layout_strtab f0) (data f0)).
  unfold unpack.
  destruct (decide (length (take 4 tab) = calcsize [fI])) as [Hlen|Hlen];
    [|discriminate].
  rewrite length_take in Hlen. change (calcsize [fI]) with 4%nat in Hlen.
  cbn [mbind outcome_bind unpack_fields unpack_fld].
  rewrite take_take. rewrite Nat.min_l by lia.
  replace (4 `min` length tab)%nat with 4%nat by lia.
  intros Hrun. apply bind_Ok in Hrun as ([strs f7] & Hstr & [= <-]).
  cbn [filehdr opthdr sechdr reloc symbols strings f].
  pose proof (read_strings_data _ _ _ _ _ _ _ Hstr) as Hdata.
  cbn [data] in Hdata.
  repeat split; try assumption; try reflexivity.
  - apply Hc.
  - apply Hc.
  - apply Hc.
  - lia.
Qed.

(** ** The string loop ends, or never does *)

Lemma read_cstring_consumed (r : bytes) :
  ((read_cstring r).2 ≤ length r)%nat ∧ (r ≠ [] → 1 ≤ (read_cstring r).2)%nat.
Proof.
  induction r as [|c r [IH _]]; cbn [read_cstring].
  - split; [reflexivity|congruence].
  - destruct (decide (c = x00)) as [Hc|Hc].
    + cbn. split; [lia|intros _; lia].
    + destruct (read_cstring r) as [s n]. cbn in *. split; [lia|intros _; lia].
Qed.

(** At the end of the file with the offset still below [nstrs], every
    iteration leaves the cursor where it is: the loop does not end. *)
Lemma read_strings_eof (fuel : nat) (baseoff nstrs : Z) (f : file)
    (acc : list (Z * bytes)) :
  rest f = [] → tell f - baseoff < nstrs →
  read_strings fuel baseoff nstrs f acc = OutOfFuel.
Proof.
  intros Heof Hoff. revert acc.
  induction fuel as [|fuel IH]; intros acc; cbn [read_strings]; [reflexivity|].
  destruct (Z.geb_spec (tell f - baseoff) nstrs) as [Hge|_]; [lia|].
  rewrite Heof. cbn [read_cstring]. rewrite Nat.add_0_r.
  destruct f as [d p]. apply IH.
Qed.

(** A run that ends does so within one iteration per remaining byte, plus
    the iteration that leaves the loop. *)
Lemma read_strings_fuel (m n : nat) (baseoff nstrs : Z) (f : file)
    (acc : list (Z * bytes)) (r : list (Z * bytes) * file) :
  read_strings m baseoff nstrs f acc = Ok r →
  (length (rest f) < n)%nat →
  read_strings n baseoff nstrs f acc = Ok r.
Proof.
  revert n f acc. induction m as [|m IH]; intros n f acc; [discriminate|].
  intros Hrun Hn. destruct n as [|n]; [lia|].
  cbn [read_strings] in Hrun |- *.
  destruct (Z.geb_spec (tell f - baseoff) nstrs) as [Hge|Hlt]; [exact Hrun|].
  destruct (decide (rest f = [])) as [Heof|Hne].
  - destruct f as [d p]. rewrite Heof in Hrun.
    cbn [read_cstring data pos] in Hrun. rewrite Nat.add_0_r in Hrun.
    rewrite read_strings_eof in Hrun; [discriminate|exact Heof|exact Hlt].
  - pose proof (read_cstring_consumed (rest f)) as [Hle Hpos].
    specialize (Hpos Hne).
    destruct (read_cstring (rest f)) as [s k]. cbn [snd] in Hle, Hpos.
    apply IH; [exact Hrun|].
    destruct f as [d p]. cbn [data pos]. rewrite rest_advance, length_drop. lia.
Qed.

(** The parse of [Coff_open] has all the fuel a parse can use. *)
Lemma Coff_open_fuel (fuel : nat) (contents : bytes) (c : Coff) :
  Coff_init fuel (File contents 0) = Ok c → Coff_open contents = Ok c.
Proof.
  unfold Coff_open. rewrite !Coff_init_eq.
  destruct (decide (complete (File contents 0))) as [_|_]; [|discriminate].
  unfold parse_strings.
  destruct (read 4 _) as [raw f6] eqn:Hread.
  destruct (unpack [fI] raw) as [[nstrs []]| |]; cbn [mbind outcome_bind];
    try discriminate.
  intros Hrun. apply bind_Ok in Hrun as ([strs f7] & Hstr & Hc).
  rewrite (read_strings_fuel fuel _ _ _ _ _ _ Hstr); [exact Hc|].
  unfold read in Hread. injection Hread as _ <-.
  unfold rest. cbn [data pos]. rewrite !length_drop. lia.
Qed.

Lemma read_strings_no_raise (fuel : nat) (baseoff nstrs : Z) (f : file)
    (acc : list (Z * bytes)) (e : exn) :
  read_strings fuel baseoff nstrs f acc ≠ Raise e.
Proof.
  revert f acc. induction fuel as [|fuel IH]; intros f acc; cbn [read_strings].
  - discriminate.
  - destruct (tell f - baseoff >=? nstrs); [discriminate|].
    destruct (read_cstring (rest f)) as [s n]. apply IH.
Qed.

(** Past the records, the parse can only fail on the length of the string
    table. *)
Lemma parse_strings_Raise (fuel : nat) (f : file) (e : exn) :
  parse_strings fuel f = Raise e → e = StructError.
Proof.
  unfold parse_strings. destruct (read 4 _) as [raw f6].
  unfold unpack. destruct (decide (length raw = calcsize [fI])) as [_|_].
  - cbn [mbind outcome_bind]. intros Hrun.
    apply bind_Raise in Hrun as [Hrun|([strs f7] & _ & Hrun)].
    + apply read_strings_no_raise in Hrun. contradiction.
    + discriminate.
  - cbn [mbind outcome_bind]. congruence.
Qed.

(** An exception of the parse does not depend on the fuel, and a parse that
    runs out of the fuel of [Coff_open] runs out of any: the string loop
    of such a file never ends. *)
Lemma Coff_init_Raise_fuel (m n : nat) (f : file) (e : exn) :
  Coff_init m f = Raise e → Coff_init n f = Raise e.
Proof.
  rewrite !Coff_init_eq.
  destruct (decide (complete f)) as [_|_]; [|intros Hrun; exact Hrun].
  unfold parse_strings. destruct (read 4 _) as [raw f6].
  destruct (unpack [fI] raw) as [[nstrs []]| |]; cbn [mbind outcome_bind];
    [|intros Hrun; exact Hrun|discriminate].
  intros Hrun. apply bind_Raise in Hrun as [Hrun|([strs f7] & _ & Hrun)].
  - apply read_strings_no_raise in Hrun. contradiction.
  - discriminate.
Qed.

Lemma Coff_open_diverges (contents : bytes) :
  Coff_open contents = OutOfFuel →
  ∀ fuel : nat, Coff_init fuel (File contents 0) = OutOfFuel.
Proof.
  intros Hopen fuel.
  destruct (Coff_init fuel (File contents 0)) as [c|e|] eqn:Hrun.
  - apply Coff_open_fuel in Hrun. congruence.
  - apply (Coff_init_Raise_fuel _ (S (length contents))) in Hrun.
    unfold Coff_open in Hopen. congruence.
  - reflexivity.
Qed.

(** ** The claims *)

(** C7: for every record layout and byte source, [readstruct] raises
    [EOFError] exactly when fewer bytes are left than the layout is wide;
    and [Coff.__init__] raises [EOFError] exactly when one of the records it
    decodes is cut short, in which case (the outcome being the exception)
    no container is returned, while every container that is returned was
    built from complete records only. *)
Theorem readstruct_EOFError_iff_truncated :
  (∀ (T : Type) (ST : StructType T) (f : file),
     readstruct T f = Raise EOFError ↔ (length (rest f) < structlen T)%nat)
  ∧ (∀ (fuel : nat) (f : file),
       Coff_init fuel f = Raise EOFError ↔ ¬ complete f)
  ∧ (∀ (fuel : nat) (f : file) (c : Coff),
       Coff_init fuel f = Ok c → complete f).
Proof.
  split; [|split].
  - intros T ST f. rewrite readstruct_eq.
    destruct (decide (structlen T ≤ length (rest f))%nat) as [Hle|Hgt].
    + split; [discriminate|lia].
    + split; [lia|reflexivity].
  - intros fuel f. rewrite Coff_init_eq.
    destruct (decide (complete f)) as [Hc|Hc].
    + split; [|contradiction].
      intros Hrun. apply parse_strings_Raise in Hrun. discriminate.
    + split; [intros _; exact Hc|reflexivity].
  - intros fuel f c Hrun. apply Coff_init_Ok in Hrun. apply Hrun.
Qed.

Lemma record_at_drop (T : Type) `{StructType T} (d : bytes) (p off : nat) :
  record_at T (drop p d) off = record_at T d (p + off).
Proof. unfold record_at. rewrite drop_drop. reflexivity. Qed.

Lemma take_drop_take (n k m : nat) (l : bytes) :
  (k + n ≤ m)%nat → take n (drop k (take m l)) = take n (drop k l).
Proof.
  intros Hle. rewrite !take_drop_commute, take_take.
  rewrite Nat.min_l by lia. reflexivity.
Qed.

Lemma rest_record_at (T : Type) `{StructType T} (f : file) (off : nat) :
  record_at T (rest f) off = record_at T (data f) (pos f + off).
Proof. unfold rest. apply record_at_drop. Qed.

(** The three fields of the file header that the parse steers by, in
    terms of the bytes of the file. *)
Lemma FileHdr_fields_at (d : bytes) (off : nat) :
  FileHdr.nscns (record_at FileHdr.t d off) = le_int (take 2 (drop (off + 2) d))
  ∧ FileHdr.symptr (record_at FileHdr.t d off) = le_int (take 4 (drop (off + 8) d))
  ∧ FileHdr.nsyms (record_at FileHdr.t d off) = le_int (take 4 (drop (off + 12) d))
  ∧ FileHdr.opthdr (record_at FileHdr.t d off) = le_int (take 2 (drop (off + 16) d)).
Proof.
  unfold record_at. cbn. rewrite !drop_drop. cbn.
  rewrite !take_drop_take by lia. rewrite !drop_drop.
  repeat split; reflexivity.
Qed.

(** C6: a container that the parse returns holds the file header decoded
    from the bytes under the cursor the parse started from; as many section
    headers as the two bytes at offset 2 of that header say ([nscns]), and
    section [i] is the record [48 * i] bytes after the headers; as many
    symbols as the four bytes at offset 12 say ([nsyms]), and symbol [i] is
    the record at file offset [symptr + 18 * i], [symptr] being the four
    bytes at offset 8.  All these records lie within the file. *)
Theorem parsed_table_sizes (fuel : nat) (f0 : file) (c : Coff) :
  Coff_init fuel f0 = Ok c →
  filehdr c = record_at FileHdr.t (data f0) (pos f0)
  ∧ FileHdr.nscns (filehdr c) = le_int (take 2 (drop (pos f0 + 2) (data f0)))
  ∧ FileHdr.symptr (filehdr c) = le_int (take 4 (drop (pos f0 + 8) (data f0)))
  ∧ FileHdr.nsyms (filehdr c) = le_int (take 4 (drop (pos f0 + 12) (data f0)))
  ∧ Z.of_nat (length (sechdr c)) = FileHdr.nscns (filehdr c)
  ∧ Z.of_nat (length (symbols c)) = FileHdr.nsyms (filehdr c)
  ∧ (∀ i : nat, (i < length (sechdr c))%nat →
       sechdr c !! i =
         Some (record_at SecHdr.t (data f0)
                 (pos f0 + (22 + (if decide (FileHdr.opthdr (filehdr c) ≠ 0%Z)
                                  then 28 else 0) + i * 48))%nat)
       ∧ (pos f0 + (22 + (if decide (FileHdr.opthdr (filehdr c) ≠ 0%Z)
                          then 28 else 0) + (i + 1) * 48)
          ≤ length (data f0))%nat)
  ∧ (∀ i : nat, (i < length (symbols c))%nat →
       symbols c !! i =
         Some (record_at SymentHdr.t (data f0)
                 (Z.to_nat (FileHdr.symptr (filehdr c))
                  + i * structlen SymentHdr.t))
       ∧ (Z.to_nat (FileHdr.symptr (filehdr c))
          + (i + 1) * structlen SymentHdr.t ≤ length (data f0))%nat).
Proof.
  intros Hrun.
  apply Coff_init_Ok in Hrun
    as ((Hsec & _ & Hsym) & -> & _ & -> & _ & -> & _ & _ & _).
  assert (layout_filehdr f0 = record_at FileHdr.t (data f0) (pos f0)) as Hhdr.
  { unfold layout_filehdr. rewrite rest_record_at, Nat.add_0_r. reflexivity. }
  destruct (FileHdr_fields_at (data f0) (pos f0)) as (Hnscns & Hsymptr & Hnsyms & _).
  rewrite <- Hhdr in Hnscns, Hsymptr, Hnsyms.
  split; [exact Hhdr|]. split; [exact Hnscns|]. split; [exact Hsymptr|].
  split; [exact Hnsyms|].
  unfold layout_sechdr, layout_symbols, layout_nscns, layout_nsyms,
    layout_symptr in *.
  rewrite !length_records.
  pose proof (FileHdr_nscns_range (rest f0) 0) as Hr1.
  pose proof (FileHdr_nsyms_range (rest f0) 0) as Hr2.
  fold (layout_filehdr f0) in Hr1, Hr2.
  split; [lia|]. split; [lia|]. split.
  - intros i Hi. rewrite lookup_records by exact Hi.
    rewrite record_at_drop, rest_record_at.
    unfold layout_hdrsize in *. unfold rest in Hsec. rewrite length_drop in Hsec.
    change (structlen FileHdr.t) with 22%nat in *.
    change (structlen OptHdr.t) with 28%nat in *.
    change (structlen SecHdr.t) with 48%nat in *.
    split; [reflexivity|].
    destruct (decide (FileHdr.opthdr (layout_filehdr f0) ≠ 0)); lia.
  - intros i Hi. rewrite lookup_records by exact Hi.
    rewrite record_at_drop. split; [reflexivity|].
    rewrite length_drop in Hsym.
    change (structlen SymentHdr.t) with 18%nat in *. lia.
Qed.

Lemma parsed_table_sizes_witness :
  Coff_init 400 (File sample_coff 0) = Ok sample_container
  ∧ le_int (take 2 (drop 2 sample_coff)) = 3
  ∧ le_int (take 4 (drop 8 sample_coff)) = 250
  ∧ le_int (take 4 (drop 12 sample_coff)) = 5
  ∧ FileHdr.nscns (filehdr sample_container) = 3
  ∧ FileHdr.symptr (filehdr sample_container) = 250
  ∧ FileHdr.nsyms (filehdr sample_container) = 5
  ∧ Z.of_nat (length (sechdr sample_container)) = 3
  ∧ Z.of_nat (length (symbols sample_container)) = 5
  ∧ (∀ i : nat, (i < length (symbols sample_container))%nat →
       symbols sample_container !! i =
         Some (record_at SymentHdr.t sample_coff
                 (Z.to_nat (FileHdr.symptr (filehdr sample_container))
                  + i * structlen SymentHdr.t))
       ∧ (Z.to_nat (FileHdr.symptr (filehdr sample_container))
          + (i + 1) * structlen SymentHdr.t ≤ length sample_coff)%nat).
Proof.
  destruct (parsed_table_sizes 400 (File sample_coff 0) sample_container)
    as (_ & Hnscns & Hsymptr & Hnsyms & Hsecs & Hsyms & _ & Hat);
    [vm_compute; reflexivity|].
  cbn [data pos] in *.
  assert (le_int (take 2 (drop 2 sample_coff)) = 3) as H3
    by (vm_compute; reflexivity).
  assert (le_int (take 4 (drop 8 sample_coff)) = 250) as H250
    by (vm_compute; reflexivity).
  assert (le_int (take 4 (drop 12 sample_coff)) = 5) as H5
    by (vm_compute; reflexivity).
  split; [vm_compute; reflexivity|].
  split; [exact H3|]. split; [exact H250|]. split; [exact H5|].
  split; [rewrite Hnscns; exact H3|].
  split; [rewrite Hsymptr; exact H250|].
  split; [rewrite Hnsyms; exact H5|].
  split; [rewrite Hsecs, Hnscns; exact H3|].
  split; [rewrite Hsyms, Hnsyms; exact H5|].
  exact Hat.
Defined.

(** C9: when the first four bytes of the input are not [MTCH] (an input
    shorter than four bytes included), [extractcoff.py] prints
    [Invalid MTC file!] and exits with status 1 without ever opening the
    output path. *)
Theorem extractcoff_rejects_bad_magic (contents : bytes) :
  take 4 contents ≠ lit "MTCH" →
  extractcoff contents = Run [lit "Invalid MTC file!"] None (Exited 1).
Proof.
  intros Hmagic. unfold extractcoff.
  change 128 with (Z.of_nat 128). rewrite read_nat.
  cbv beta iota zeta. unfold rest. cbn [data pos drop].
  rewrite take_take. change (4 `min` 128)%nat with 4%nat.
  rewrite decide_True by exact Hmagic. reflexivity.
Qed.

Lemma extractcoff_rejects_bad_magic_witness :
  take 4 (lit "MTC") ≠ lit "MTCH"
  ∧ extractcoff (lit "MTC") = Run [lit "Invalid MTC file!"] None (Exited 1).
Proof.
  split.
  - vm_compute. discriminate.
  - apply (extractcoff_rejects_bad_magic (lit "MTC")).
    vm_compute. discriminate.
Defined.

(** ** Indexing *)

Lemma getitem_nonneg {A : Type} (l : list A) (i : Z) (x : A) :
  0 ≤ i → l !! Z.to_nat i = Some x → getitem l i = Ok x.
Proof.
  intros Hi Hx. unfold getitem.
  destruct (Z.ltb_spec i 0) as [?|_]; [lia|].
  destruct (Z.ltb_spec i 0) as [?|_]; [lia|].
  rewrite Hx. reflexivity.
Qed.

Lemma getitem_last {A : Type} (l : list A) (x : A) :
  last l = Some x → getitem l (-1) = Ok x.
Proof.
  intros Hx. unfold getitem. rewrite last_lookup in Hx.
  assert (length l ≠ 0)%nat as Hlen.
  { intros H0. apply lookup_lt_Some in Hx. lia. }
  destruct (Z.ltb_spec (-1) 0) as [_|?]; [|lia].
  destruct (Z.ltb_spec (-1 + Z.of_nat (length l)) 0) as [?|_]; [lia|].
  replace (Z.to_nat (-1 + Z.of_nat (length l))) with (pred (length l)) by lia.
  rewrite Hx. reflexivity.
Qed.

Lemma getitem_IndexError {A : Type} (l : list A) (i : Z) :
  getitem l i = Raise IndexError ↔
  i < - Z.of_nat (length l) ∨ Z.of_nat (length l) ≤ i.
Proof.
  unfold getitem.
  destruct (Z.ltb_spec i 0) as [Hneg|Hpos].
  - destruct (Z.ltb_spec (i + Z.of_nat (length l)) 0) as [Hlow|Hin].
    + split; [intros _; lia|reflexivity].
    + destruct (l !! Z.to_nat (i + Z.of_nat (length l))) as [x|] eqn:Hx.
      * split; [discriminate|lia].
      * apply lookup_ge_None in Hx. lia.
  - destruct (Z.ltb_spec i 0) as [?|_]; [lia|].
    destruct (l !! Z.to_nat i) as [x|] eqn:Hx.
    + apply lookup_lt_Some in Hx. split; [discriminate|lia].
    + apply lookup_ge_None in Hx. split; [intros _; lia|reflexivity].
Qed.

Lemma getitem_Raise {A : Type} (l : list A) (i : Z) (e : exn) :
  getitem l i = Raise e → e = IndexError.
Proof.
  unfold getitem. destruct (_ <? 0); [congruence|].
  destruct (l !! _); congruence.
Qed.

Lemma seek_Raise (p : Z) (f : file) (e : exn) : seek p f = Raise e → e = IOError.
Proof. unfold seek. destruct (p <? 0); congruence. Qed.

(** C1, as the code has it: [symboldata] raises [IndexError] exactly when
    [scnum - 1] is no index of the section list, Python's negative indices
    included: for the section numbers a symbol record can hold (0 to
    65535), when [scnum] exceeds the number of sections or the list is
    empty.  Section number 0 of a non-empty list is index [-1], the last
    section, and the read goes on against it. *)
Theorem symboldata_IndexError_iff (c : Coff) (sym : SymentHdr.t) :
  (symboldata c sym = Raise IndexError ↔
     SymentHdr.scnum sym ≤ - Z.of_nat (length (sechdr c))
     ∨ Z.of_nat (length (sechdr c)) < SymentHdr.scnum sym)
  ∧ (∀ s : SecHdr.t,
       SymentHdr.scnum sym = 0 → last (sechdr c) = Some s →
       symboldata c sym =
         f' ← seek (SecHdr.scnptr s + SymentHdr.value sym - SecHdr.vaddr s) (f c);
         Ok (read (foldl (nextsymb_step sym) 0xffffffff (symbols c)
                   - SymentHdr.value sym) f')).
Proof.
  split.
  - unfold symboldata. rewrite bind_Raise, getitem_IndexError. split.
    + intros [Hidx|(sec & _ & Hrest)]; [lia|].
      apply bind_Raise in Hrest as [Hseek|(f' & _ & [=])].
      apply seek_Raise in Hseek. discriminate.
    + intros Hidx. left. lia.
  - intros s H0 Hlast. unfold symboldata. rewrite H0.
    change (0 - 1) with (-1). rewrite (getitem_last _ _ Hlast). reflexivity.
Qed.

Lemma symboldata_IndexError_iff_witness :
  ∃ (c : Coff) (sym : SymentHdr.t) (s : SecHdr.t),
    Coff_init 400 (File sample_coff 0) = Ok c
    ∧ symbols c !! 3%nat = Some sym
    ∧ SymentHdr.scnum sym = 0
    ∧ last (sechdr c) = Some s
    ∧ symboldata c sym =
        f' ← seek (SecHdr.scnptr s + SymentHdr.value sym - SecHdr.vaddr s) (f c);
        Ok (read (foldl (nextsymb_step sym) 0xffffffff (symbols c)
                  - SymentHdr.value sym) f').
Proof.
  do 3 eexists. split; [vm_compute; reflexivity|].
  split; [vm_compute; reflexivity|].
  split; [vm_compute; reflexivity|].
  split; [vm_compute; reflexivity|].
  apply (proj2 (symboldata_IndexError_iff _ _)); vm_compute; reflexivity.
Defined.

(** C1 as stated fails: symbol 3 of the sample container has section
    number 0, and [symboldata] returns (an empty string, read against the
    last section) where the claim has it raise [IndexError]. *)
Lemma symboldata_section_zero_resolves :
  (c ← Coff_open sample_coff;
   sym ← getitem (symbols c) 3;
   '(d, _) ← symboldata c sym;
   Ok (SymentHdr.scnum sym, length (sechdr c), d)) = Ok (0, 3%nat, []).
Proof. vm_compute. reflexivity. Qed.

(** ** The boundary search *)

Lemma nextsymb_fold (sym : SymentHdr.t) (syms : list SymentHdr.t) (acc : Z) :
  foldl (nextsymb_step sym) acc syms =
    foldr Z.min acc (higher_functions syms (SymentHdr.value sym)).
Proof.
  revert acc. induction syms as [|s syms IH]; intros acc; [reflexivity|].
  cbn [foldl]. rewrite IH. unfold higher_functions, nextsymb_step.
  rewrite filter_cons.
  destruct (decide (SymentHdr.type s = 4)) as [Hty|Hty].
  2:{ rewrite decide_True by exact Hty. reflexivity. }
  rewrite decide_False by (intros Hne; exact (Hne Hty)).
  - rewrite fmap_cons, filter_cons.
    set (tl := filter _ (SymentHdr.value <$> _)).
    destruct (decide (SymentHdr.value s > SymentHdr.value sym
                      ∧ SymentHdr.value s < acc)) as [[Hgt Hlt]|Hno].
    + rewrite decide_True by lia. cbn [foldr].
      clear IH. induction tl as [|x tl IHtl]; cbn [foldr]; lia.
    + destruct (decide (SymentHdr.value sym < SymentHdr.value s)) as [Hgt|_];
        [|reflexivity].
      cbn [foldr]. clear IH. induction tl as [|x tl IHtl]; cbn [foldr]; lia.
Qed.

Lemma foldr_min_swap (l : list Z) (a c : Z) :
  Z.min a (foldr Z.min c l) = Z.min c (foldr Z.min a l).
Proof.
  induction l as [|y ys IH]; cbn [foldr]; lia.
Qed.

Lemma foldr_min_le (l : list Z) (a : Z) : foldr Z.min a l ≤ a.
Proof.
  induction l as [|y ys IH]; cbn [foldr]; lia.
Qed.

Lemma foldr_min_bounded (m : Z) (l : list Z) :
  Forall (λ x, x ≤ m) l →
  foldr Z.min m l = match l with [] => m | x :: xs => foldr Z.min x xs end.
Proof.
  destruct l as [|x xs]; [reflexivity|].
  intros [Hx _]%Forall_cons. cbn [foldr].
  rewrite foldr_min_swap. pose proof (foldr_min_le xs x). lia.
Qed.

Lemma parsed_symbol_values (fuel : nat) (f0 : file) (c : Coff) :
  Coff_init fuel f0 = Ok c →
  Forall (λ s, 0 ≤ SymentHdr.value s ≤ 0xffffffff) (symbols c).
Proof.
  intros Hrun. apply Coff_init_Ok in Hrun as (_ & _ & _ & _ & _ & -> & _).
  apply Forall_forall. intros s (i & _ & ->)%elem_of_records.
  pose proof (SymentHdr_value_range (drop (layout_symptr f0) (data f0))
                (i * structlen SymentHdr.t)). lia.
Qed.

Lemma higher_functions_bounded (symbols : list SymentHdr.t) (v m : Z) :
  Forall (λ s, 0 ≤ SymentHdr.value s ≤ m) symbols →
  Forall (λ x, x ≤ m) (higher_functions symbols v).
Proof.
  rewrite !Forall_forall. intros Hall x Hx. unfold higher_functions in Hx.
  apply list_elem_of_filter in Hx as [_ Hx].
  apply list_elem_of_fmap in Hx as (s & -> & Hs).
  apply list_elem_of_filter in Hs as [_ Hs].
  apply Hall in Hs. lia.
Qed.

(** C2: for a parsed container and a symbol whose section number is a
    valid 1-based index, with owning section [sec], and whose value lies in
    [[vaddr, vaddr + size)] of that section, [symboldata] returns what a
    read of [B - value] bytes at file offset [scnptr + (value - vaddr)]
    returns, [B] being the least value above [value] among the type-4
    symbols of the whole table, or [0xffffffff] when there is none. *)
Theorem symboldata_span (fuel : nat) (f0 : file) (c : Coff)
    (sym : SymentHdr.t) (sec : SecHdr.t) :
  Coff_init fuel f0 = Ok c →
  1 ≤ SymentHdr.scnum sym ≤ Z.of_nat (length (sechdr c)) →
  sechdr c !! Z.to_nat (SymentHdr.scnum sym - 1) = Some sec →
  SecHdr.vaddr sec ≤ SymentHdr.value sym < SecHdr.vaddr sec + SecHdr.size sec →
  symboldata c sym =
    Ok (read (boundary (symbols c) (SymentHdr.value sym) - SymentHdr.value sym)
          (File (data f0)
             (Z.to_nat (SecHdr.scnptr sec
                        + (SymentHdr.value sym - SecHdr.vaddr sec))))).
Proof.
  intros Hrun Hscnum Hsec Hin.
  pose proof (parsed_symbol_values _ _ _ Hrun) as Hvals.
  pose proof Hrun as Hparts.
  apply Coff_init_Ok in Hparts as (_ & _ & _ & Hsecs & _ & _ & Hdata & _).
  assert (0 ≤ SecHdr.scnptr sec) as Hptr.
  { apply list_elem_of_lookup_2 in Hsec. rewrite Hsecs in Hsec.
    apply elem_of_records in Hsec as (i & _ & ->).
    apply SecHdr_scnptr_range. }
  unfold symboldata.
  rewrite (getitem_nonneg _ _ sec) by (lia || exact Hsec).
  cbn [mbind outcome_bind].
  rewrite seek_nonneg by lia. cbn [mbind outcome_bind].
  rewrite nextsymb_fold.
  rewrite foldr_min_bounded by (apply higher_functions_bounded; exact Hvals).
  fold (boundary (symbols c) (SymentHdr.value sym)).
  rewrite Hdata. do 3 f_equal. lia.
Qed.

Lemma symboldata_span_witness :
  ∃ (c : Coff) (sym : SymentHdr.t) (sec : SecHdr.t),
    Coff_init 400 (File sample_coff 0) = Ok c
    ∧ symbols c !! 1%nat = Some sym
    ∧ boundary (symbols c) (SymentHdr.value sym) = 0x2008
    ∧ symboldata c sym =
        Ok (read (boundary (symbols c) (SymentHdr.value sym)
                  - SymentHdr.value sym)
              (File sample_coff
                 (Z.to_nat (SecHdr.scnptr sec
                            + (SymentHdr.value sym - SecHdr.vaddr sec))))).
Proof.
  do 3 eexists. split; [vm_compute; reflexivity|].
  split; [vm_compute; reflexivity|].
  split; [vm_compute; reflexivity|].
  apply (symboldata_span 400 (File sample_coff 0)).
  - vm_compute. reflexivity.
  - vm_compute. split; discriminate.
  - vm_compute. reflexivity.
  - vm_compute. split; [discriminate|reflexivity].
Defined.

(** ** The string-table scan *)

Lemma read_strings_step (fuel : nat) (baseoff nstrs : Z) (f : file)
    (acc : list (Z * bytes)) :
  tell f - baseoff < nstrs →
  read_strings (S fuel) baseoff nstrs f acc =
    read_strings fuel baseoff nstrs
      (File (data f) (pos f + (read_cstring (rest f)).2))
      (acc ++ [(tell f - baseoff, (read_cstring (rest f)).1)]).
Proof.
  intros Hlt. cbn [read_strings].
  destruct (Z.geb_spec (tell f - baseoff) nstrs) as [?|_]; [lia|].
  destruct (read_cstring (rest f)) as [s n]. reflexivity.
Qed.

Lemma read_strings_stop (fuel : nat) (baseoff nstrs : Z) (f : file)
    (acc : list (Z * bytes)) :
  nstrs ≤ tell f - baseoff →
  read_strings (S fuel) baseoff nstrs f acc = Ok (acc, f).
Proof.
  intros Hge. cbn [read_strings].
  destruct (Z.geb_spec (tell f - baseoff) nstrs) as [_|?]; [reflexivity|lia].
Qed.

(** C3, as the code has it: wherever the example table stands in a file,
    the scan that [Coff.__init__] runs from its length field on yields
    [(4, foo)] and [(8, bar)] and stops with the cursor 12 bytes into the
    table, the first offset that is not below 10; offsets count from the
    length field itself.  The parse of the sample file gives the same
    pairs. *)
Theorem string_scan_example :
  (∀ (pre post : bytes) (fuel : nat),
     let f5 := File (pre ++ strtab_example ++ post) (length pre) in
     (read 4 f5).1 = le_bytes 4 10
     ∧ read_strings (3 + fuel) (tell f5) (le_int (read 4 f5).1) (read 4 f5).2 []
       = Ok ([(4, lit "foo"); (8, lit "bar")],
             File (pre ++ strtab_example ++ post) (length pre + 12)))
  ∧ (c ← Coff_open sample_strtab; Ok (strings c))
    = Ok [(4, lit "foo"); (8, lit "bar")].
Proof.
  split; [|vm_compute; reflexivity].
  intros pre post fuel f5.
  assert (∀ k : nat,
    rest (File (pre ++ strtab_example ++ post) (length pre + k))
    = drop k (strtab_example ++ post)) as Hrest.
  { intros k. unfold rest. cbn [data pos]. apply drop_app_add. }
  change (read 4) with (read (Z.of_nat 4)). rewrite read_nat.
  subst f5. cbn [fst snd data pos].
  pose proof (Hrest 0%nat) as Hrest0. rewrite Nat.add_0_r, drop_0 in Hrest0.
  rewrite Hrest0.
  split; [reflexivity|].
  change (take 4 (strtab_example ++ post)) with (le_bytes 4 10).
  change (le_int (le_bytes 4 10)) with 10.
  change (4 `min` length (strtab_example ++ post))%nat with 4%nat.
  change (3 + fuel)%nat with (S (S (S fuel))).
  rewrite read_strings_step by (unfold tell; cbn [pos]; lia).
  cbn [data pos]. rewrite Hrest.
  change (read_cstring (drop 4 (strtab_example ++ post)))
    with (lit "foo", 4%nat).
  cbn [fst snd app]. 
  rewrite read_strings_step by (unfold tell; cbn [pos]; lia).
  cbn [data pos].
  replace (length pre + 4 + 4)%nat with (length pre + 8)%nat by lia.
  rewrite Hrest.
  change (read_cstring (drop 8 (strtab_example ++ post)))
    with (lit "bar", 4%nat).
  cbn [fst snd app].
  rewrite read_strings_stop by (unfold tell; cbn [pos]; lia).
  unfold tell. cbn [pos].
  replace (Z.of_nat (length pre + 4) - Z.of_nat (length pre)) with 4 by lia.
  replace (Z.of_nat (length pre + 8) - Z.of_nat (length pre)) with 8 by lia.
  rewrite <- Nat.add_assoc. reflexivity.
Qed.

(** C3 as stated fails: the pairs are not [(0, foo)] and [(4, bar)]. *)
Lemma string_scan_not_from_zero :
  (c ← Coff_open sample_strtab; Ok (strings c))
  ≠ Ok [(0, lit "foo"); (4, lit "bar")].
Proof. vm_compute. discriminate. Qed.

(** ** Symbol names *)

(** [rstrip0] removes the trailing null bytes and nothing else. *)
Lemma rstrip0_spec (s : bytes) :
  ∃ k : nat, s = rstrip0 s ++ replicate k x00 ∧ last (rstrip0 s) ≠ Some x00.
Proof.
  induction s as [|c s (k & Hs & Hlast)]; cbn [rstrip0].
  - exists 0%nat. split; [reflexivity|discriminate].
  - destruct (rstrip0 s) as [|t ts] eqn:Ht.
    + destruct (decide (c = x00)) as [->|Hc].
      * exists (S k). cbn [app replicate] in Hs |- *.
        split; [f_equal; exact Hs|exact Hlast].
      * exists k. cbn [app] in Hs |- *. split; [f_equal; exact Hs|].
        cbn. intros [= Heq]. exact (Hc Heq).
    + exists k. split; [cbn [app]; f_equal; exact Hs|].
      rewrite last_cons. destruct (last (t :: ts)) eqn:Hl; [exact Hlast|].
      rewrite last_cons in Hl. destruct (last ts); discriminate.
Qed.

Lemma unpack_II (raw : bytes) :
  length raw = 8%nat →
  unpack [fI; fI] raw = Ok (le_int (take 4 raw), (le_int (take 4 (drop 4 raw)), ())).
Proof. intros Hlen. rewrite unpack_exact by exact Hlen. reflexivity. Qed.

(** The two properties of a symbol with an eight-byte raw name. *)
Lemma name_offset_cases (s : SymentHdr.t) :
  length (SymentHdr.orig_name s) = 8%nat →
  let w0 := le_int (take 4 (SymentHdr.orig_name s)) in
  let w1 := le_int (take 4 (drop 4 (SymentHdr.orig_name s))) in
  (w0 = 0 ∧ SymentHdr.name s = Ok None ∧ SymentHdr.offset s = Ok w1)
  ∨ (w0 ≠ 0
     ∧ SymentHdr.name s = Ok (Some (rstrip0 (SymentHdr.orig_name s)))
     ∧ SymentHdr.offset s = Ok (-1)).
Proof.
  intros Hlen w0 w1. unfold SymentHdr.name, SymentHdr.offset.
  rewrite (unpack_II _ Hlen). cbn [mbind outcome_bind]. fold w0 w1.
  destruct (decide (w0 = 0)) as [H0|H0].
  - left. rewrite decide_False by (intros Hne; exact (Hne H0)). auto.
  - right. rewrite decide_True by exact H0. auto.
Qed.

Lemma parsed_symbol_names (fuel : nat) (f0 : file) (c : Coff) (s : SymentHdr.t) :
  Coff_init fuel f0 = Ok c → s ∈ symbols c →
  length (SymentHdr.orig_name s) = 8%nat.
Proof.
  intros Hrun Hs.
  apply Coff_init_Ok in Hrun as ((_ & _ & Hsym) & _ & _ & _ & _ & Hsyms & _).
  rewrite Hsyms in Hs.
  apply elem_of_records in Hs as (i & Hi & ->).
  apply SymentHdr_orig_name_length.
  unfold layout_nsyms in Hi.
  change (structlen SymentHdr.t) with 18%nat in *.
  unfold layout_nsyms in Hsym. lia.
Qed.

Lemma read_strings_offsets (fuel : nat) (baseoff nstrs : Z) (f f' : file)
    (acc out : list (Z * bytes)) :
  read_strings fuel baseoff nstrs f acc = Ok (out, f') →
  ∃ new, out = acc ++ new
         ∧ Forall (λ p, tell f - baseoff ≤ p.1 < nstrs) new.
Proof.
  revert f acc. induction fuel as [|fuel IH]; intros f acc; cbn [read_strings].
  - discriminate.
  - destruct (Z.geb_spec (tell f - baseoff) nstrs) as [Hge|Hlt].
    + intros [= <- <-]. exists []. rewrite app_nil_r. split; [reflexivity|constructor].
    + destruct (read_cstring (rest f)) as [s n]. intros Hrec.
      apply IH in Hrec as (new & -> & Hnew).
      exists ((tell f - baseoff, s) :: new). rewrite <- app_assoc.
      split; [reflexivity|]. constructor.
      * cbn [fst]. lia.
      * eapply Forall_impl; [exact Hnew|].
        intros p. unfold tell. cbn [pos]. lia.
Qed.

(** The offsets of a parsed string table count from its length field: none
    is below 4. *)
Lemma parsed_string_offsets (fuel : nat) (f0 : file) (c : Coff) :
  Coff_init fuel f0 = Ok c → Forall (λ p, 4 ≤ p.1) (strings c).
Proof.
  intros Hrun.
  apply Coff_init_Ok in Hrun as (_ & _ & _ & _ & _ & _ & _ & _ & Hstr).
  apply read_strings_offsets in Hstr as (new & -> & Hnew).
  cbn [app]. eapply Forall_impl; [exact Hnew|].
  intros p. unfold tell. cbn [pos]. lia.
Qed.

(** C4: for every entry [s] of a parsed symbol table, with [(w0, w1)] the
    two little-endian words of its eight-byte raw name, exactly one case
    applies, chosen by whether [w0] is zero: either [w0 = 0], the entry has
    no inline name and its string-table key is [w1]; or [w0] is not zero,
    the name is the raw field without its trailing null bytes, and the key
    is [-1], which is the offset of no string-table entry. *)
Theorem name_resolution_total_exclusive (fuel : nat) (f0 : file) (c : Coff)
    (s : SymentHdr.t) :
  Coff_init fuel f0 = Ok c → s ∈ symbols c →
  let w0 := le_int (take 4 (SymentHdr.orig_name s)) in
  let w1 := le_int (take 4 (drop 4 (SymentHdr.orig_name s))) in
  length (SymentHdr.orig_name s) = 8%nat
  ∧ ((w0 = 0 ∧ SymentHdr.name s = Ok None ∧ SymentHdr.offset s = Ok w1)
     ∨ (w0 ≠ 0
        ∧ (∃ (n : bytes) (k : nat),
             SymentHdr.name s = Ok (Some n)
             ∧ SymentHdr.orig_name s = n ++ replicate k x00
             ∧ last n ≠ Some x00)
        ∧ SymentHdr.offset s = Ok (-1)
        ∧ ∀ p, p ∈ strings c → p.1 ≠ -1)).
Proof.
  intros Hrun Hs w0 w1.
  pose proof (parsed_symbol_names _ _ _ _ Hrun Hs) as Hlen.
  split; [exact Hlen|].
  destruct (name_offset_cases s Hlen) as [Hzero|(Hw0 & Hname & Hoff)].
  - left. exact Hzero.
  - right. split; [exact Hw0|]. split; [|split; [exact Hoff|]].
    + destruct (rstrip0_spec (SymentHdr.orig_name s)) as (k & Hk & Hlast).
      exists (rstrip0 (SymentHdr.orig_name s)), k. auto.
    + intros p Hp.
      pose proof (parsed_string_offsets _ _ _ Hrun) as Hall.
      rewrite Forall_forall in Hall. specialize (Hall p Hp). lia.
Qed.

Lemma name_resolution_total_exclusive_witness :
  ∃ (c : Coff) (s : SymentHdr.t),
    Coff_init 400 (File sample_coff 0) = Ok c
    ∧ symbols c !! 1%nat = Some s
    ∧ length (SymentHdr.orig_name s) = 8%nat
    ∧ ((le_int (take 4 (SymentHdr.orig_name s)) = 0
        ∧ SymentHdr.name s = Ok None
        ∧ SymentHdr.offset s
          = Ok (le_int (take 4 (drop 4 (SymentHdr.orig_name s)))))
       ∨ (le_int (take 4 (SymentHdr.orig_name s)) ≠ 0
          ∧ (∃ (n : bytes) (k : nat),
               SymentHdr.name s = Ok (Some n)
               ∧ SymentHdr.orig_name s = n ++ replicate k x00
               ∧ last n ≠ Some x00)
          ∧ SymentHdr.offset s = Ok (-1)
          ∧ ∀ p, p ∈ strings c → p.1 ≠ -1)).
Proof.
  do 2 eexists. split; [vm_compute; reflexivity|].
  split; [vm_compute; reflexivity|].
  apply (name_resolution_total_exclusive 400 (File sample_coff 0)).
  - vm_compute. reflexivity.
  - apply list_elem_of_lookup. exists 1%nat. vm_compute. reflexivity.
Defined.

(** ** Section data *)

Lemma read_nonneg (n : Z) (f : file) :
  0 ≤ n →
  read n f = (take (Z.to_nat n) (rest f),
              File (data f) (pos f + Nat.min (Z.to_nat n) (length (rest f)))).
Proof. intros Hn. rewrite <- (Z2Nat.id n) at 1 by exact Hn. apply read_nat. Qed.

Lemma sectiondata_loop_first (pre post : list SecHdr.t) (s : SecHdr.t)
    (n : bytes) (f : file) :
  SecHdr.name s = n → (∀ s', s' ∈ pre → SecHdr.name s' ≠ n) →
  sectiondata_loop (pre ++ s :: post) n f =
    f' ← seek (SecHdr.scnptr s) f;
    let '(d, f') := read (SecHdr.size s) f' in Ok (Some d, f').
Proof.
  intros Hs. induction pre as [|s' pre IH]; intros Hpre; cbn [app sectiondata_loop].
  - rewrite decide_True by exact Hs. reflexivity.
  - rewrite decide_False by (apply Hpre; left).
    apply IH. intros s'' Hin. apply Hpre. right. exact Hin.
Qed.

Lemma sectiondata_loop_none (secs : list SecHdr.t) (n : bytes) (f : file) :
  (∀ s, s ∈ secs → SecHdr.name s ≠ n) →
  sectiondata_loop secs n f = Ok (None, f).
Proof.
  induction secs as [|s secs IH]; intros Hall; cbn [sectiondata_loop].
  - reflexivity.
  - rewrite decide_False by (apply Hall; left).
    apply IH. intros s' Hin. apply Hall. right. exact Hin.
Qed.

(** C8, as the code has it: for a parsed container, [sectiondata(n)]
    returns the bytes read at file offset [scnptr] of the first section, in
    header order, whose trimmed name is [n]: [size] bytes when the file
    holds that many from there on, and only those up to the end of the
    file otherwise; it returns [None], and leaves the file alone, when no
    section has that name. *)
Theorem sectiondata_first_match (fuel : nat) (f0 : file) (c : Coff) (n : bytes) :
  Coff_init fuel f0 = Ok c →
  (∀ (pre post : list SecHdr.t) (s : SecHdr.t),
     sechdr c = pre ++ s :: post →
     SecHdr.name s = n → (∀ s', s' ∈ pre → SecHdr.name s' ≠ n) →
     ∃ (d : bytes) (f' : file),
       sectiondata c n = Ok (Some d, f')
       ∧ d = take (Z.to_nat (SecHdr.size s))
               (drop (Z.to_nat (SecHdr.scnptr s)) (data f0))
       ∧ length d = Nat.min (Z.to_nat (SecHdr.size s))
                      (length (data f0) - Z.to_nat (SecHdr.scnptr s)))
  ∧ ((∀ s, s ∈ sechdr c → SecHdr.name s ≠ n) →
     sectiondata c n = Ok (None, f c)).
Proof.
  intros Hrun. split.
  - intros pre post s Hsecs Hname Hpre.
    apply Coff_init_Ok in Hrun as (_ & _ & _ & Hlay & _ & _ & Hdata & _).
    assert (0 ≤ SecHdr.scnptr s ∧ 0 ≤ SecHdr.size s) as [Hptr Hsize].
    { assert (s ∈ layout_sechdr f0) as Hin.
      { rewrite <- Hlay, Hsecs. apply elem_of_app. right. left. }
      apply elem_of_records in Hin as (i & _ & ->).
      split; [apply SecHdr_scnptr_range|apply SecHdr_size_range]. }
    unfold sectiondata. rewrite Hsecs.
    rewrite (sectiondata_loop_first _ _ _ _ _ Hname Hpre).
    rewrite seek_nonneg by exact Hptr. cbn [mbind outcome_bind].
    rewrite read_nonneg by exact Hsize.
    unfold rest. cbn [data pos]. rewrite Hdata.
    eexists _, _. split; [reflexivity|]. split; [reflexivity|].
    rewrite length_take, length_drop. reflexivity.
  - intros Hnone. unfold sectiondata. apply sectiondata_loop_none. exact Hnone.
Qed.

Lemma sectiondata_first_match_witness :
  ∃ c : Coff,
    Coff_init 400 (File sample_coff 0) = Ok c
    ∧ (∀ (pre post : list SecHdr.t) (s : SecHdr.t),
         sechdr c = pre ++ s :: post →
         SecHdr.name s = lit ".text" →
         (∀ s', s' ∈ pre → SecHdr.name s' ≠ lit ".text") →
         ∃ (d : bytes) (f' : file),
           sectiondata c (lit ".text") = Ok (Some d, f')
           ∧ d = take (Z.to_nat (SecHdr.size s))
                   (drop (Z.to_nat (SecHdr.scnptr s)) sample_coff)
           ∧ length d = Nat.min (Z.to_nat (SecHdr.size s))
                          (length sample_coff - Z.to_nat (SecHdr.scnptr s)))
      ∧ ((∀ s, s ∈ sechdr c → SecHdr.name s ≠ lit ".text") →
         sectiondata c (lit ".text") = Ok (None, f c)).
Proof.
  eexists. split; [vm_compute; reflexivity|].
  apply (sectiondata_first_match 400 (File sample_coff 0)).
  vm_compute. reflexivity.
Defined.

(** C8 as stated fails: the third section of the sample container is
    [.bss] with size 256, and [sectiondata] returns the three bytes that
    the file holds from its [scnptr] on. *)
Lemma sectiondata_short_read :
  (c ← Coff_open sample_coff;
   s ← getitem (sechdr c) 2;
   '(d, _) ← sectiondata c (SecHdr.name s);
   Ok (SecHdr.name s, SecHdr.size s, length <$> (d : option bytes)))
  = Ok (lit ".bss", 256, Some 3%nat).
Proof. vm_compute. reflexivity. Qed.

(** ** The relocation dictionary *)

Lemma reloc_store_other (d : bytes) (rs : list (bytes * Z * Z))
    (m : gmap bytes (list RelocHdr.t)) (n : bytes) :
  (∀ r, r ∈ rs → r.1.1 ≠ n) →
  foldl (reloc_store d) m rs !! n = m !! n.
Proof.
  revert m. induction rs as [|r rs IH]; intros m Hrs; cbn [foldl].
  - reflexivity.
  - rewrite IH by (intros r' Hr'; apply Hrs; right; exact Hr').
    unfold reloc_store. apply lookup_insert_ne. apply Hrs. left.
Qed.

Lemma reloc_store_last (d : bytes) (rs1 rs2 : list (bytes * Z * Z))
    (r : bytes * Z * Z) (m : gmap bytes (list RelocHdr.t)) :
  (∀ r', r' ∈ rs2 → r'.1.1 ≠ r.1.1) →
  foldl (reloc_store d) m (rs1 ++ r :: rs2) !! r.1.1 = Some (reloc_table d r).
Proof.
  intros Hrs2. rewrite foldl_app. cbn [foldl].
  rewrite reloc_store_other by exact Hrs2.
  unfold reloc_store. apply lookup_insert_eq.
Qed.

Lemma relocsecs_app (l1 l2 : list SecHdr.t) :
  relocsecs (l1 ++ l2) = relocsecs l1 ++ relocsecs l2.
Proof. unfold relocsecs. rewrite filter_app, fmap_app. reflexivity. Qed.

Lemma elem_of_relocsecs (secs : list SecHdr.t) (r : bytes * Z * Z) :
  r ∈ relocsecs secs →
  ∃ s, s ∈ secs ∧ SecHdr.relptr s ≠ 0 ∧ r.1.1 = SecHdr.name s.
Proof.
  unfold relocsecs. intros (s & -> & Hs)%list_elem_of_fmap.
  apply list_elem_of_filter in Hs as [Hrel Hs].
  exists s. auto.
Qed.

(** C10: in a parsed container, the relocation dictionary maps the name of
    a section with a non-zero [relptr] to the entries decoded at the
    [relptr] of the last such section of that name in header order,
    whatever sections of the same name come before it; and a name that no
    section with a non-zero [relptr] bears is no key of the dictionary. *)
Theorem reloc_last_section_wins (fuel : nat) (f0 : file) (c : Coff) :
  Coff_init fuel f0 = Ok c →
  (∀ (pre post : list SecHdr.t) (s : SecHdr.t),
     sechdr c = pre ++ s :: post →
     SecHdr.relptr s ≠ 0 →
     (∀ s', s' ∈ post → SecHdr.relptr s' ≠ 0 → SecHdr.name s' ≠ SecHdr.name s) →
     reloc c !! SecHdr.name s =
       Some (records RelocHdr.t (Z.to_nat (SecHdr.nreloc s))
               (drop (Z.to_nat (SecHdr.relptr s)) (data f0))))
  ∧ (∀ n : bytes,
       (∀ s, s ∈ sechdr c → SecHdr.relptr s ≠ 0 → SecHdr.name s ≠ n) →
       reloc c !! n = None).
Proof.
  intros Hrun.
  apply Coff_init_Ok in Hrun as (_ & _ & _ & Hsecs & Hreloc & _).
  rewrite <- Hsecs in Hreloc. split.
  - intros pre post s Hsplit Hrel Hpost.
    rewrite Hreloc, Hsplit.
    change (pre ++ s :: post) with (pre ++ [s] ++ post).
    rewrite !relocsecs_app.
    assert (relocsecs [s]
            = [(SecHdr.name s, SecHdr.relptr s, SecHdr.nreloc s)]) as ->.
    { unfold relocsecs. rewrite filter_cons, decide_True by exact Hrel.
      reflexivity. }
    cbn [app].
    apply (reloc_store_last (data f0) _ _
             (SecHdr.name s, SecHdr.relptr s, SecHdr.nreloc s)).
    intros r' (s' & Hs' & Hrel' & ->)%elem_of_relocsecs. cbn [fst].
    apply Hpost; assumption.
  - intros n Hnone. rewrite Hreloc.
    rewrite reloc_store_other; [apply lookup_empty|].
    intros r (s & Hs & Hrel & ->)%elem_of_relocsecs.
    apply Hnone; assumption.
Qed.

Lemma reloc_last_section_wins_witness :
  ∃ (c : Coff) (s1 s2 s3 : SecHdr.t),
    Coff_init 400 (File sample_coff 0) = Ok c
    ∧ sechdr c = [s1] ++ s2 :: [s3]
    ∧ SecHdr.name s1 = SecHdr.name s2
    ∧ SecHdr.relptr s1 ≠ 0
    ∧ reloc c !! SecHdr.name s2 =
        Some (records RelocHdr.t (Z.to_nat (SecHdr.nreloc s2))
                (drop (Z.to_nat (SecHdr.relptr s2)) sample_coff))
    ∧ reloc c !! lit ".bss" = None.
Proof.
  do 4 eexists. split; [vm_compute; reflexivity|].
  split; [vm_compute; reflexivity|].
  split; [vm_compute; reflexivity|].
  split; [vm_compute; discriminate|].
  split; [|vm_compute; reflexivity].
  match goal with
  | |- context [reloc ?c !! _] =>
      destruct (reloc_last_section_wins 400 (File sample_coff 0) c)
        as [Hlast _]; [vm_compute; reflexivity|]
  end.
  apply (Hlast [_] [_] _ eq_refl).
  - vm_compute. discriminate.
  - intros s' Hs' Hrel. apply list_elem_of_singleton in Hs' as ->.
    exfalso. apply Hrel. vm_compute. reflexivity.
Defined.

(** ** The driver *)

Section sorted_facts.
Context {A : Type} (key : A → Z).

Lemma insert_by_perm (x : A) (l : list A) : insert_by key x l ≡ₚ x :: l.
Proof.
  induction l as [|y l IH]; cbn [insert_by]; [reflexivity|].
  destruct (key x <=? key y); [reflexivity|].
  rewrite IH. apply Permutation_swap.
Qed.

Lemma sorted_perm (l : list A) : sorted key l ≡ₚ l.
Proof.
  induction l as [|x l IH]; cbn [sorted]; [reflexivity|].
  rewrite insert_by_perm, IH. reflexivity.
Qed.




End sorted_facts.



Lemma length_names_from (strs : list (Z * bytes)) (idx : Z)
    (syms : list SymentHdr.t) :
  length (names_from strs idx syms) = length syms.
Proof. unfold names_from. apply length_imap. Qed.

Lemma scan_strings_eq (strs : list (Z * bytes)) (s : SymentHdr.t) (o : Z)
    (name : option bytes) :
  SymentHdr.offset s = Ok o →
  scan_strings strs s name =
    Ok (foldl (λ name p, if decide (p.1 = o) then Some p.2 else name) name strs).
Proof.
  intros Ho. revert name.
  induction strs as [|[off st] strs IH]; intros name; cbn [scan_strings foldl].
  - reflexivity.
  - rewrite Ho. cbn [mbind outcome_bind fst snd]. apply IH.
Qed.



Lemma resolve_name_Ok (strs : list (Z * bytes)) (s : SymentHdr.t) :
  length (SymentHdr.orig_name s) = 8%nat →
  ∃ o : option bytes, resolve_name strs s = Ok o.
Proof.
  intros Hlen. unfold resolve_name.
  destruct (name_offset_cases s Hlen) as [(_ & -> & Hoff)|(_ & -> & _)];
    cbn [mbind outcome_bind]; [|eauto].
  rewrite (scan_strings_eq _ _ _ _ Hoff). eauto.
Qed.







Lemma select_elem_of (symbols : list SymentHdr.t) (s : SymentHdr.t) :
  s ∈ select symbols →
  s ∈ symbols ∧ SymentHdr.type s = 4 ∧ SymentHdr.scnum s = 2.
Proof.
  unfold select. rewrite sorted_perm. intros [Hp Hs]%list_elem_of_filter.
  tauto.
Qed.



(** The run on the sample container: three functions in section 2, by
    value, the second of them without a name; and the same run where no
    file can be created. *)
Example parsecoff_sample :
  (parsecoff (λ _, true) sample_coff).2 = Ok ()
  ∧ printed (parsecoff (λ _, true) sample_coff).1
    = [lit "Doing symbol long_function_name"; lit "Doing symbol unknown1";
       lit "Doing symbol main"]
  ∧ written (parsecoff (λ _, true) sample_coff).1
    = [lit "func/long_function_name"; lit "func/unknown1"; lit "func/main"]
  ∧ parsecoff (λ _, false) sample_coff
    = ([EvPrint (lit "Doing symbol long_function_name")], Raise IOError).
Proof. vm_compute. repeat split; reflexivity. Qed.

(** Paths that [open] refuses whatever the file system holds. *)
Example open_w_refused (fs : bytes → bool) :
  open_w fs (lit "func/") = Raise IOError
  ∧ open_w fs (lit "func/.") = Raise IOError
  ∧ open_w fs (lit "func/a/..") = Raise IOError
  ∧ open_w fs (lit "func/a" ++ [x00] ++ lit "b") = Raise TypeError
  ∧ open_w fs (lit "func/a/b") = (if fs (lit "func/a/b") then Ok () else Raise IOError).
Proof. repeat split. Qed.

(** * Further properties *)


(** ** The record decoder *)

(** X1: the list comprehension [[self.readstruct(T) for _ in range(n)]]
    succeeds exactly when [n] whole records are left under the cursor; it
    then returns [n] records, record [i] decoded from the bytes at
    [pos + i * structlen], leaves the cursor [n * structlen] further and the
    contents as they were; it raises [EOFError] otherwise. *)
Theorem readstructs_decodes (T : Type) (ST : StructType T) (n : nat) (f : file) :
  ((n * structlen T ≤ length (rest f))%nat →
   ∃ l : list T,
     readstructs T n f = Ok (l, File (data f) (pos f + n * structlen T))
     ∧ length l = n
     ∧ ∀ i : nat, (i < n)%nat →
         l !! i = Some (record_at T (data f) (pos f + i * structlen T)))
  ∧ ((length (rest f) < n * structlen T)%nat →
     readstructs T n f = Raise EOFError).
Proof.
  rewrite readstructs_eq. split.
  - intros Hle. rewrite decide_True by exact Hle.
    exists (records T n (rest f)). split; [reflexivity|].
    split; [apply length_records|].
    intros i Hi. rewrite lookup_records by exact Hi.
    rewrite rest_record_at. reflexivity.
  - intros Hlt. rewrite decide_False by lia. reflexivity.
Qed.

(** ** Parsed records *)

Lemma SymentHdr_fields_range (d : bytes) (off : nat) :
  let s := record_at SymentHdr.t d off in
  0 ≤ SymentHdr.value s < 2 ^ 32
  ∧ 0 ≤ SymentHdr.scnum s < 2 ^ 16
  ∧ 0 ≤ SymentHdr.type s < 2 ^ 16
  ∧ 0 ≤ SymentHdr.sclass s < 2 ^ 8
  ∧ 0 ≤ SymentHdr.numaux s < 2 ^ 8.
Proof.
  unfold record_at. cbn.
  pose proof (le_int_take 4 (drop 8 (take 18 (drop off d)))).
  pose proof (le_int_take 2 (drop 12 (take 18 (drop off d)))).
  pose proof (le_int_take 2 (drop 14 (take 18 (drop off d)))).
  pose proof (le_int_take 1 (drop 16 (take 18 (drop off d)))).
  pose proof (le_int_take 1 (drop 17 (take 18 (drop off d)))).
  cbn in *. rewrite ?drop_drop in *. cbn in *. lia.
Qed.

Lemma SecHdr_fields_range (d : bytes) (off : nat) :
  let s := record_at SecHdr.t d off in
  0 ≤ SecHdr.paddr s < 2 ^ 32
  ∧ 0 ≤ SecHdr.vaddr s < 2 ^ 32
  ∧ 0 ≤ SecHdr.size s < 2 ^ 32
  ∧ 0 ≤ SecHdr.scnptr s < 2 ^ 32
  ∧ 0 ≤ SecHdr.relptr s < 2 ^ 32
  ∧ 0 ≤ SecHdr.lnnoptr s < 2 ^ 32
  ∧ 0 ≤ SecHdr.nreloc s < 2 ^ 32
  ∧ 0 ≤ SecHdr.nlnno s < 2 ^ 32
  ∧ 0 ≤ SecHdr.flags s < 2 ^ 32
  ∧ 0 ≤ SecHdr.reserved s < 2 ^ 16
  ∧ 0 ≤ SecHdr.page s < 2 ^ 16.
Proof.
  unfold record_at. cbn.
  set (r := take 48 (drop off d)).
  pose proof (le_int_take 4 (drop 8 r)).
  pose proof (le_int_take 4 (drop 12 r)).
  pose proof (le_int_take 4 (drop 16 r)).
  pose proof (le_int_take 4 (drop 20 r)).
  pose proof (le_int_take 4 (drop 24 r)).
  pose proof (le_int_take 4 (drop 28 r)).
  pose proof (le_int_take 4 (drop 32 r)).
  pose proof (le_int_take 4 (drop 36 r)).
  pose proof (le_int_take 4 (drop 40 r)).
  pose proof (le_int_take 2 (drop 44 r)).
  pose proof (le_int_take 2 (drop 46 r)).
  cbn in *. rewrite ?drop_drop in *. cbn in *. lia.
Qed.

Lemma SecHdr_orig_name_length (d : bytes) (off : nat) :
  (off + structlen SecHdr.t ≤ length d)%nat →
  length (SecHdr.orig_name (record_at SecHdr.t d off)) = 8%nat.
Proof.
  intros Hlen. unfold record_at. cbn in *.
  rewrite !length_take, length_drop. lia.
Qed.

(** X2: every symbol and every section header of a parsed container
    carries an eight-byte raw name and unsigned fields within their widths
    (32, 16 or 8 bits). *)
Theorem parsed_fields_in_range (fuel : nat) (f0 : file) (c : Coff) :
  Coff_init fuel f0 = Ok c →
  Forall (λ s, length (SymentHdr.orig_name s) = 8%nat
               ∧ 0 ≤ SymentHdr.value s < 2 ^ 32
               ∧ 0 ≤ SymentHdr.scnum s < 2 ^ 16
               ∧ 0 ≤ SymentHdr.type s < 2 ^ 16
               ∧ 0 ≤ SymentHdr.sclass s < 2 ^ 8
               ∧ 0 ≤ SymentHdr.numaux s < 2 ^ 8) (symbols c)
  ∧ Forall (λ s, length (SecHdr.orig_name s) = 8%nat
                 ∧ 0 ≤ SecHdr.paddr s < 2 ^ 32
                 ∧ 0 ≤ SecHdr.vaddr s < 2 ^ 32
                 ∧ 0 ≤ SecHdr.size s < 2 ^ 32
                 ∧ 0 ≤ SecHdr.scnptr s < 2 ^ 32
                 ∧ 0 ≤ SecHdr.relptr s < 2 ^ 32
                 ∧ 0 ≤ SecHdr.lnnoptr s < 2 ^ 32
                 ∧ 0 ≤ SecHdr.nreloc s < 2 ^ 32
                 ∧ 0 ≤ SecHdr.nlnno s < 2 ^ 32
                 ∧ 0 ≤ SecHdr.flags s < 2 ^ 32
                 ∧ 0 ≤ SecHdr.reserved s < 2 ^ 16
                 ∧ 0 ≤ SecHdr.page s < 2 ^ 16) (sechdr c).
Proof.
  intros Hrun. split.
  - apply Forall_forall. intros s Hs. split.
    + exact (parsed_symbol_names _ _ _ _ Hrun Hs).
    + apply Coff_init_Ok in Hrun as (_ & _ & _ & _ & _ & Hsyms & _).
      rewrite Hsyms in Hs. apply elem_of_records in Hs as (i & _ & ->).
      apply SymentHdr_fields_range.
  - apply Coff_init_Ok in Hrun as ((Hsec & _) & _ & _ & -> & _).
    apply Forall_forall. intros s (i & Hi & ->)%elem_of_records. split.
    + apply SecHdr_orig_name_length. rewrite length_drop.
      unfold layout_nscns in Hi.
      change (structlen SecHdr.t) with 48%nat in *.
      unfold layout_nscns in Hsec. lia.
    + apply SecHdr_fields_range.
Qed.

Lemma parsed_fields_in_range_witness :
  Coff_init 400 (File sample_coff 0) = Ok sample_container
  ∧ length (symbols sample_container) = 5%nat
  ∧ length (sechdr sample_container) = 3%nat
  ∧ Forall (λ s, length (SymentHdr.orig_name s) = 8%nat
                 ∧ 0 ≤ SymentHdr.value s < 2 ^ 32
                 ∧ 0 ≤ SymentHdr.scnum s < 2 ^ 16
                 ∧ 0 ≤ SymentHdr.type s < 2 ^ 16
                 ∧ 0 ≤ SymentHdr.sclass s < 2 ^ 8
                 ∧ 0 ≤ SymentHdr.numaux s < 2 ^ 8) (symbols sample_container).
Proof.
  split; [vm_compute; reflexivity|].
  split; [vm_compute; reflexivity|].
  split; [vm_compute; reflexivity|].
  apply (parsed_fields_in_range 400 (File sample_coff 0)).
  vm_compute. reflexivity.
Defined.

(** ** How a parse ends *)

Lemma parse_strings_eq (fuel : nat) (f : file) :
  parse_strings fuel f =
    if decide (4 ≤ length (drop (layout_strtab f) (data f)))%nat then
      '(strs, f7) ← read_strings fuel (Z.of_nat (layout_strtab f))
                      (le_int (take 4 (drop (layout_strtab f) (data f))))
                      (File (data f) (layout_strtab f + 4)) [];
      Ok (MkCoff f7 (layout_filehdr f) (layout_opthdr f) (layout_sechdr f)
            (foldl (reloc_store (data f)) ∅ (relocsecs (layout_sechdr f)))
            (layout_symbols f) strs)
    else Raise StructError.
Proof.
  unfold parse_strings. change (read 4) with (read (Z.of_nat 4)).
  rewrite read_nat. unfold rest, tell. cbn [data pos].
  set (tab := drop (layout_strtab f) (data f)).
  unfold unpack. rewrite length_take. change (calcsize [fI]) with 4%nat.
  destruct (decide (4 ≤ length tab)%nat) as [Hle|Hlt].
  - rewrite decide_True by lia. rewrite Nat.min_l by exact Hle.
    cbn [mbind outcome_bind unpack_fields unpack_fld].
    rewrite take_take, Nat.min_l by lia. reflexivity.
  - rewrite decide_False by lia. reflexivity.
Qed.

Lemma read_strings_terminates (fuel : nat) (baseoff nstrs : Z) :
  ∀ (f : file) (acc : list (Z * bytes)),
    (pos f ≤ length (data f))%nat →
    nstrs ≤ Z.of_nat (length (data f)) - baseoff →
    (length (rest f) < fuel)%nat →
    ∃ out f', read_strings fuel baseoff nstrs f acc = Ok (out, f').
Proof.
  induction fuel as [|fuel IH]; intros f acc Hpos Hn Hfuel; [lia|].
  cbn [read_strings].
  destruct (Z.geb_spec (tell f - baseoff) nstrs) as [Hge|Hlt]; [eauto|].
  pose proof (read_cstring_consumed (rest f)) as [Hle Hne].
  destruct (read_cstring (rest f)) as [s n]. cbn [snd] in Hle, Hne.
  destruct f as [d p]. unfold tell, rest in *. cbn [data pos] in *.
  rewrite length_drop in *.
  assert (d ≠ [] ∧ drop p d ≠ []) as [_ Hrest].
  { split; intros Heq; apply (f_equal length) in Heq;
      rewrite ?length_drop in Heq; cbn in Heq; lia. }
  specialize (Hne Hrest).
  apply IH; cbn [data pos]; rewrite ?length_drop; lia.
Qed.

Lemma read_strings_diverges (fuel : nat) (baseoff nstrs : Z) :
  ∀ (f : file) (acc : list (Z * bytes)),
    (pos f ≤ length (data f))%nat →
    Z.of_nat (length (data f)) - baseoff < nstrs →
    read_strings fuel baseoff nstrs f acc = OutOfFuel.
Proof.
  induction fuel as [|fuel IH]; intros f acc Hpos Hn; [reflexivity|].
  cbn [read_strings].
  destruct (Z.geb_spec (tell f - baseoff) nstrs) as [Hge|Hlt].
  { unfold tell in Hge. lia. }
  pose proof (read_cstring_consumed (rest f)) as [Hle _].
  destruct (read_cstring (rest f)) as [s n]. cbn [snd] in Hle.
  unfold rest in Hle. rewrite length_drop in Hle.
  apply IH; cbn [data pos]; lia.
Qed.

(** X3: [Coff.__init__] raises [struct.error] exactly when every record is
    complete but fewer than four bytes follow the symbol table, where the
    length of the string table is read; it raises no other exception than
    that one and [EOFError]. *)
Theorem parse_struct_error (fuel : nat) (f : file) :
  (Coff_init fuel f = Raise StructError ↔
     complete f ∧ (length (drop (layout_strtab f) (data f)) < 4)%nat)
  ∧ (∀ e : exn, Coff_init fuel f = Raise e → e = EOFError ∨ e = StructError).
Proof.
  rewrite Coff_init_eq, parse_strings_eq.
  destruct (decide (complete f)) as [Hc|Hc].
  - destruct (decide (4 ≤ length (drop (layout_strtab f) (data f)))%nat)
      as [Hle|Hlt].
    + split.
      * split; [|intros [_ ?]; lia].
        intros Hrun. apply bind_Raise in Hrun as [Hrun|([strs f7] & _ & [=])].
        apply read_strings_no_raise in Hrun. contradiction.
      * intros e Hrun.
        apply bind_Raise in Hrun as [Hrun|([strs f7] & _ & [=])].
        apply read_strings_no_raise in Hrun. contradiction.
    + split; [split; [intros _; split; [exact Hc|lia]|reflexivity]|].
      intros e [= <-]. right. reflexivity.
  - split; [split; [discriminate|intros [? _]; contradiction]|].
    intros e [= <-]. left. reflexivity.
Qed.

(** X4: when every record is complete and the four bytes of the length
    [nstrs] are there, the string loop decides whether [Coff.__init__]
    returns: with [nstrs] no greater than the number of bytes from the
    length field to the end of the file it returns a container, within one
    iteration per byte of the file; with a greater [nstrs] the running
    offset never reaches it and the loop never ends, whatever the fuel. *)
Theorem parse_returns_or_hangs (f : file) :
  complete f →
  (4 ≤ length (drop (layout_strtab f) (data f)))%nat →
  (le_int (take 4 (drop (layout_strtab f) (data f)))
     ≤ Z.of_nat (length (drop (layout_strtab f) (data f))) →
   ∀ fuel : nat, (length (data f) < fuel)%nat →
     ∃ c : Coff, Coff_init fuel f = Ok c)
  ∧ (Z.of_nat (length (drop (layout_strtab f) (data f)))
       < le_int (take 4 (drop (layout_strtab f) (data f))) →
     ∀ fuel : nat, Coff_init fuel f = OutOfFuel).
Proof.
  intros Hc Hlen. split.
  - intros Hn fuel Hfuel. rewrite Coff_init_eq, parse_strings_eq.
    rewrite decide_True by exact Hc. rewrite decide_True by exact Hlen.
    rewrite length_drop in Hlen, Hn.
    destruct (read_strings_terminates fuel (Z.of_nat (layout_strtab f))
                (le_int (take 4 (drop (layout_strtab f) (data f))))
                (File (data f) (layout_strtab f + 4)) [])
      as (out & f' & ->).
    + cbn [data pos]. lia.
    + cbn [data]. lia.
    + unfold rest. cbn [data pos]. rewrite length_drop. lia.
    + cbn [mbind outcome_bind]. eauto.
  - intros Hn fuel. rewrite Coff_init_eq, parse_strings_eq.
    rewrite decide_True by exact Hc. rewrite decide_True by exact Hlen.
    rewrite length_drop in Hlen, Hn.
    rewrite read_strings_diverges; [reflexivity| |].
    + cbn [data pos]. lia.
    + cbn [data]. lia.
Qed.

Lemma parse_returns_or_hangs_witness :
  complete (File sample_hang 0)
  ∧ (4 ≤ length (drop (layout_strtab (File sample_hang 0)) sample_hang))%nat
  ∧ (∀ fuel : nat, Coff_init fuel (File sample_hang 0) = OutOfFuel)
  ∧ (∀ fuel : nat, (length sample_strtab < fuel)%nat →
       ∃ c : Coff, Coff_init fuel (File sample_strtab 0) = Ok c).
Proof.
  assert (complete (File sample_hang 0)) as Hc1
    by (apply (bool_decide_unpack _); vm_compute; exact I).
  assert (complete (File sample_strtab 0)) as Hc2
    by (apply (bool_decide_unpack _); vm_compute; exact I).
  assert (4 ≤ length (drop (layout_strtab (File sample_hang 0)) sample_hang))%nat
    as Hl1 by (apply (bool_decide_unpack _); vm_compute; exact I).
  assert (4 ≤ length (drop (layout_strtab (File sample_strtab 0)) sample_strtab))%nat
    as Hl2 by (apply (bool_decide_unpack _); vm_compute; exact I).
  split; [exact Hc1|]. split; [exact Hl1|]. split.
  - apply (proj2 (parse_returns_or_hangs (File sample_hang 0) Hc1 Hl1)).
    vm_compute. reflexivity.
  - apply (proj1 (parse_returns_or_hangs (File sample_strtab 0) Hc2 Hl2)).
    vm_compute. discriminate.
Defined.

(** ** The entries of the string table *)

Lemma read_cstring_spec (r : bytes) :
  (x00 ∉ (read_cstring r).1)
  ∧ take (length (read_cstring r).1) r = (read_cstring r).1
  ∧ (((read_cstring r).2 = S (length (read_cstring r).1)
      ∧ r !! length (read_cstring r).1 = Some x00)
     ∨ ((read_cstring r).2 = length (read_cstring r).1
        ∧ (read_cstring r).1 = r)).
Proof.
  induction r as [|c r (Hnul & Htake & Hend)]; cbn [read_cstring].
  - cbn. split; [intros Hin; inversion Hin|]. split; [reflexivity|].
    right. split; reflexivity.
  - destruct (decide (c = x00)) as [->|Hc].
    + cbn. split; [intros Hin; inversion Hin|]. split; [reflexivity|].
      left. split; reflexivity.
    + destruct (read_cstring r) as [s n]. cbn [fst snd length take] in *.
      split.
      { intros [Heq|Hin]%elem_of_cons; [congruence|exact (Hnul Hin)]. }
      split; [f_equal; exact Htake|].
      destruct Hend as [[-> Hlook]|[-> ->]].
      * left. split; [reflexivity|exact Hlook].
      * right. split; reflexivity.
Qed.

Lemma read_strings_chain (fuel : nat) (b : nat) (nstrs : Z) :
  ∀ (f f' : file) (acc out : list (Z * bytes)),
    read_strings fuel (Z.of_nat b) nstrs f acc = Ok (out, f') →
    ∃ new, out = acc ++ new ∧ string_chain (data f) b (pos f) new.
Proof.
  induction fuel as [|fuel IH]; intros f f' acc out; cbn [read_strings];
    [discriminate|].
  destruct (Z.geb_spec (tell f - Z.of_nat b) nstrs) as [Hge|Hlt].
  { intros [= <- <-]. exists []. rewrite app_nil_r. split; [reflexivity|exact I]. }
  pose proof (read_cstring_spec (rest f)) as (Hnul & Htake & Hend).
  destruct (read_cstring (rest f)) as [s n]. cbn [fst snd] in *.
  intros Hrec. pose proof Hrec as Hrec'.
  apply IH in Hrec as (new & -> & Hchain). cbn [data pos] in Hchain.
  exists ((tell f - Z.of_nat b, s) :: new). rewrite <- app_assoc.
  split; [reflexivity|]. cbn [string_chain].
  split; [reflexivity|]. split; [exact Hnul|]. split; [exact Htake|].
  destruct Hend as [[-> Hlook]|[-> Heq]].
  - split.
    + destruct new; [left|]; exact Hlook.
    + replace (pos f + length s + 1)%nat with (pos f + S (length s))%nat by lia.
      exact Hchain.
  - (* the string ran into the end of the file *)
    assert (rest (File (data f) (pos f + length s)) = []) as Heof.
    { rewrite rest_advance. destruct f as [d p]. cbn [data pos].
      rewrite <- Heq at 1. apply drop_all. }
    destruct fuel as [|fuel]; [discriminate|].
    cbn [read_strings] in Hrec'.
    destruct (Z.geb_spec (tell (File (data f) (pos f + length s)) - Z.of_nat b)
                nstrs) as [Hge|Hlt'].
    + injection Hrec' as Hout _.
      apply (f_equal length) in Hout. rewrite !length_app in Hout.
      assert (new = []) as -> by (apply nil_length_inv; lia).
      split; [|exact I]. right. fold (rest f).
      apply lookup_ge_None. rewrite <- Heq at 1. lia.
    + rewrite Heof in Hrec'. cbn [read_cstring] in Hrec'.
      rewrite Nat.add_0_r in Hrec'.
      rewrite read_strings_eof in Hrec'; [discriminate|exact Heof|exact Hlt'].
Qed.

Lemma string_chain_entries (d : bytes) (b : nat) (es : list (Z * bytes)) :
  ∀ (p i : nat) (off : Z) (s : bytes),
    string_chain d b p es → (b ≤ p)%nat →
    es !! i = Some (off, s) →
    (x00 ∉ s)
    ∧ take (length s) (drop (b + Z.to_nat off) d) = s
    ∧ ∀ (off' : Z) (s' : bytes),
        es !! S i = Some (off', s') →
        off' = off + Z.of_nat (length s) + 1
        ∧ drop (b + Z.to_nat off) d !! length s = Some x00.
Proof.
  induction es as [|[o t] es IH]; intros p i off s Hchain Hbp Hi;
    [rewrite lookup_nil in Hi; discriminate|].
  cbn [string_chain] in Hchain.
  destruct Hchain as (Ho & Hnul & Htake & Hsep & Hrest).
  destruct i as [|i].
  - injection Hi as -> ->.
    replace (b + Z.to_nat off)%nat with p by lia.
    split; [exact Hnul|]. split; [exact Htake|].
    intros off' s' Hnext. destruct es as [|[o' t'] es]; [discriminate|].
    injection Hnext as -> ->. cbn [string_chain] in Hrest.
    destruct Hrest as (Ho' & _). split; [lia|exact Hsep].
  - apply (IH (p + length t + 1)%nat i off s Hrest); [lia|exact Hi].
Qed.

(** X5: the string table of a parsed container, entry by entry.  An
    entry [(off, s)] has [4 <= off < nstrs]; [s] holds no null byte and is
    the bytes of the file at [off] bytes from the length field; and when
    another entry follows, [s] is followed by a null byte and the next
    entry has offset [off + len(s) + 1]. *)
Theorem parsed_strings_layout (fuel : nat) (f0 : file) (c : Coff) :
  Coff_init fuel f0 = Ok c →
  ∀ (i : nat) (off : Z) (s : bytes),
    strings c !! i = Some (off, s) →
    4 ≤ off < le_int (take 4 (drop (layout_strtab f0) (data f0)))
    ∧ (x00 ∉ s)
    ∧ take (length s) (drop (layout_strtab f0 + Z.to_nat off) (data f0)) = s
    ∧ ∀ (off' : Z) (s' : bytes),
        strings c !! S i = Some (off', s') →
        off' = off + Z.of_nat (length s) + 1
        ∧ drop (layout_strtab f0 + Z.to_nat off) (data f0) !! length s
          = Some x00.
Proof.
  intros Hrun i off s Hi.
  apply Coff_init_Ok in Hrun as (_ & _ & _ & _ & _ & _ & _ & _ & Hstr).
  pose proof (read_strings_offsets _ _ _ _ _ _ _ Hstr) as (new & Hnew & Hoffs).
  apply read_strings_chain in Hstr as (new' & Hnew' & Hchain).
  cbn [app] in Hnew, Hnew'. subst new'. cbn [data pos] in Hchain.
  split.
  - rewrite Hnew in Hi. rewrite Forall_forall in Hoffs.
    apply list_elem_of_lookup_2 in Hi. specialize (Hoffs _ Hi).
    unfold tell in Hoffs. cbn [pos fst] in Hoffs. lia.
  - apply (string_chain_entries _ _ _ _ _ _ _ Hchain); [lia|exact Hi].
Qed.

Lemma parsed_strings_layout_witness :
  ∃ c : Coff,
    Coff_init 40 (File sample_strtab 0) = Ok c
    ∧ strings c !! 0%nat = Some (4, lit "foo")
    ∧ 4 ≤ 4 < le_int (take 4 (drop (layout_strtab (File sample_strtab 0))
                                sample_strtab))
    ∧ (x00 ∉ lit "foo")
    ∧ take (length (lit "foo"))
        (drop (layout_strtab (File sample_strtab 0) + Z.to_nat 4) sample_strtab)
      = lit "foo"
    ∧ ∀ (off' : Z) (s' : bytes),
        strings c !! 1%nat = Some (off', s') →
        off' = 4 + Z.of_nat (length (lit "foo")) + 1
        ∧ drop (layout_strtab (File sample_strtab 0) + Z.to_nat 4) sample_strtab
            !! length (lit "foo") = Some x00.
Proof.
  eexists. split; [vm_compute; reflexivity|].
  split; [vm_compute; reflexivity|].
  apply (parsed_strings_layout 40 (File sample_strtab 0) _
           ltac:(vm_compute; reflexivity) 0%nat 4 (lit "foo")).
  vm_compute. reflexivity.
Defined.

(** ** Names found in the string table *)

Lemma string_chain_lower (d : bytes) (b : nat) (es : list (Z * bytes)) :
  ∀ p : nat, string_chain d b p es →
    Forall (λ e, Z.of_nat p - Z.of_nat b ≤ e.1) es.
Proof.
  induction es as [|[o t] es IH]; intros p Hchain; [constructor|].
  cbn [string_chain] in Hchain. destruct Hchain as (-> & _ & _ & _ & Hrest).
  constructor; [cbn [fst]; lia|].
  eapply Forall_impl; [exact (IH _ Hrest)|]. intros e. cbn beta. lia.
Qed.

Lemma string_chain_NoDup (d : bytes) (b : nat) (es : list (Z * bytes)) :
  ∀ p : nat, string_chain d b p es → NoDup es.*1.
Proof.
  induction es as [|[o t] es IH]; intros p Hchain; [constructor|].
  cbn [string_chain] in Hchain. destruct Hchain as (-> & _ & _ & _ & Hrest).
  cbn [fmap list_fmap fst]. constructor; [|exact (IH _ Hrest)].
  intros (e & Heq & He)%list_elem_of_fmap.
  pose proof (string_chain_lower _ _ _ _ Hrest) as Hlow.
  rewrite Forall_forall in Hlow. specialize (Hlow e He). lia.
Qed.

Lemma last_match_Some (strs : list (Z * bytes)) (o : Z) (st : bytes) :
  NoDup strs.*1 →
  foldl (λ name p, if decide (p.1 = o) then Some p.2 else name) None strs
    = Some st
  ↔ (o, st) ∈ strs.
Proof.
  intros Hnd.
  assert (∀ name : option bytes,
    foldl (λ name p, if decide (p.1 = o) then Some p.2 else name) name strs
      = Some st
    ↔ (o, st) ∈ strs ∨ (name = Some st ∧ o ∉ strs.*1)) as Hgen.
  { induction strs as [|[off t] strs IH]; intros name; cbn [foldl].
    - split.
      + intros ->. right. split; [reflexivity|]. intros Hin. inversion Hin.
      + intros [Hin|[-> _]]; [inversion Hin|reflexivity].
    - apply NoDup_cons in Hnd as [Hoff Hnd]. rewrite (IH Hnd).
      cbn [fst snd fmap list_fmap] in *.
      destruct (decide (off = o)) as [->|Hne].
      + split.
        * intros [Hin|[[= ->] _]]; [|left; left].
          exfalso. apply Hoff. apply list_elem_of_fmap.
          exists (o, st). split; [reflexivity|exact Hin].
        * intros [[[= ->]|Hin]%elem_of_cons|[_ Hnot]].
          -- right. split; [reflexivity|exact Hoff].
          -- exfalso. apply Hoff. apply list_elem_of_fmap.
             exists (o, st). split; [reflexivity|exact Hin].
          -- exfalso. apply Hnot. left.
      + split.
        * intros [Hin|[-> Hnot]]; [left; right; exact Hin|].
          right. split; [reflexivity|].
          intros [Heq|Hin]%elem_of_cons; [congruence|exact (Hnot Hin)].
        * intros [[[= -> _]|Hin]%elem_of_cons|[-> Hnot]].
          -- congruence.
          -- left. exact Hin.
          -- right. split; [reflexivity|].
             intros Hin. apply Hnot. right. exact Hin. }
  rewrite Hgen. split; [intros [Hin|[[=] _]]; exact Hin|intros Hin; left; exact Hin].
Qed.

(** X6: how a symbol of a parsed container gets its name.  With a
    non-zero first word the name is the raw field without its trailing null
    bytes; with a zero first word and second word [w1], the name is [st]
    exactly when [(w1, st)] is an entry of the string table, and there is at
    most one such entry. *)
Theorem resolve_name_lookup (fuel : nat) (f0 : file) (c : Coff)
    (s : SymentHdr.t) :
  Coff_init fuel f0 = Ok c → s ∈ symbols c →
  (le_int (take 4 (SymentHdr.orig_name s)) ≠ 0 →
   resolve_name (strings c) s = Ok (Some (rstrip0 (SymentHdr.orig_name s))))
  ∧ (le_int (take 4 (SymentHdr.orig_name s)) = 0 →
     ∀ st : bytes,
       resolve_name (strings c) s = Ok (Some st)
       ↔ (le_int (take 4 (drop 4 (SymentHdr.orig_name s))), st) ∈ strings c)
  ∧ NoDup (strings c).*1.
Proof.
  intros Hrun Hs.
  pose proof (parsed_symbol_names _ _ _ _ Hrun Hs) as Hlen.
  assert (NoDup (strings c).*1) as Hnd.
  { apply Coff_init_Ok in Hrun as (_ & _ & _ & _ & _ & _ & _ & _ & Hstr).
    apply read_strings_chain in Hstr as (new & Hnew & Hchain).
    cbn [app] in Hnew. subst new. exact (string_chain_NoDup _ _ _ _ Hchain). }
  unfold resolve_name.
  destruct (name_offset_cases s Hlen) as [(Hw0 & Hname & Hoff)|(Hw0 & Hname & Hoff)];
    rewrite Hname; cbn [mbind outcome_bind].
  - split; [intros Hne; contradiction|]. split; [|exact Hnd].
    intros _ st. rewrite (scan_strings_eq _ _ _ _ Hoff).
    rewrite <- (last_match_Some _ _ _ Hnd). split; [intros [= ->]|intros ->]; reflexivity.
  - split; [intros _; reflexivity|]. split; [|exact Hnd].
    intros H0. contradiction.
Qed.

Lemma resolve_name_lookup_witness :
  ∃ s : SymentHdr.t,
    Coff_init 400 (File sample_coff 0) = Ok sample_container
    ∧ symbols sample_container !! 1%nat = Some s
    ∧ resolve_name (strings sample_container) s
      = Ok (Some (lit "long_function_name"))
    ∧ ∀ st : bytes,
        resolve_name (strings sample_container) s = Ok (Some st)
        ↔ (le_int (take 4 (drop 4 (SymentHdr.orig_name s))), st)
          ∈ strings sample_container.
Proof.
  eexists. split; [vm_compute; reflexivity|].
  split; [vm_compute; reflexivity|].
  split; [vm_compute; reflexivity|].
  match goal with
  | |- ∀ st, resolve_name _ ?s = _ ↔ _ =>
      destruct (resolve_name_lookup 400 (File sample_coff 0) sample_container s)
        as (_ & Hlookup & _)
  end.
  - vm_compute. reflexivity.
  - apply list_elem_of_lookup. exists 1%nat. vm_compute. reflexivity.
  - apply Hlookup. vm_compute. reflexivity.
Defined.

(** ** Spans outside their section *)

Lemma boundary_range (symbols : list SymentHdr.t) (v : Z) :
  Forall (λ s, 0 ≤ SymentHdr.value s ≤ 0xffffffff) symbols →
  v ≤ 0xffffffff →
  v ≤ boundary symbols v ≤ 0xffffffff
  ∧ (v < 0xffffffff → v < boundary symbols v).
Proof.
  intros Hvals Hv. unfold boundary.
  pose proof (higher_functions_bounded symbols v _ Hvals) as Hup.
  assert (Forall (λ x, v < x) (higher_functions symbols v)) as Hlow.
  { apply Forall_forall. intros x Hx. unfold higher_functions in Hx.
    apply list_elem_of_filter in Hx as [Hx _]. exact Hx. }
  destruct (higher_functions symbols v) as [|x xs]; [lia|].
  apply Forall_cons in Hup as [Hx Hxs]. apply Forall_cons in Hlow as [Hx' Hxs'].
  assert (v < foldr Z.min x xs ≤ 0xffffffff) as Hfold.
  { clear Hxs. pose proof (foldr_min_le xs x). split; [|lia].
    induction xs as [|y ys IH]; cbn [foldr]; [lia|].
    apply Forall_cons in Hxs' as [Hy Hys]. specialize (IH Hys). lia. }
  lia.
Qed.

(** X7: [symboldata] does not check that the symbol lies in its section.
    For a symbol of a parsed table whose section number is a valid 1-based
    index, the only failure is a negative file offset
    [scnptr + value - vaddr], refused by [seek] with [IOError]; otherwise it
    returns the bytes of the file from that offset on, never more than
    [B - value] of them, the requested size [B - value] being never
    negative, and leaves the cursor after the bytes it returned. *)
Theorem symboldata_unchecked_span (fuel : nat) (f0 : file) (c : Coff)
    (sym : SymentHdr.t) (sec : SecHdr.t) :
  Coff_init fuel f0 = Ok c → sym ∈ symbols c →
  1 ≤ SymentHdr.scnum sym →
  sechdr c !! Z.to_nat (SymentHdr.scnum sym - 1) = Some sec →
  (SecHdr.scnptr sec + SymentHdr.value sym - SecHdr.vaddr sec < 0 →
   symboldata c sym = Raise IOError)
  ∧ (0 ≤ SecHdr.scnptr sec + SymentHdr.value sym - SecHdr.vaddr sec →
     0 ≤ boundary (symbols c) (SymentHdr.value sym) - SymentHdr.value sym
     ∧ ∃ (d : bytes) (f' : file),
         symboldata c sym = Ok (d, f')
         ∧ d = take (Z.to_nat (boundary (symbols c) (SymentHdr.value sym)
                               - SymentHdr.value sym))
                 (drop (Z.to_nat (SecHdr.scnptr sec + SymentHdr.value sym
                                  - SecHdr.vaddr sec)) (data f0))
         ∧ f' = File (data f0)
                  (Z.to_nat (SecHdr.scnptr sec + SymentHdr.value sym
                             - SecHdr.vaddr sec) + length d)).
Proof.
  intros Hrun Hsym Hscnum Hsec.
  pose proof (parsed_symbol_values _ _ _ Hrun) as Hvals.
  pose proof Hvals as Hv. rewrite Forall_forall in Hv. specialize (Hv _ Hsym).
  apply Coff_init_Ok in Hrun as (_ & _ & _ & _ & _ & _ & Hdata & _).
  unfold symboldata.
  rewrite (getitem_nonneg _ _ sec) by (lia || exact Hsec).
  cbn [mbind outcome_bind]. split.
  - intros Hneg. unfold seek.
    destruct (Z.ltb_spec (SecHdr.scnptr sec + SymentHdr.value sym
                          - SecHdr.vaddr sec) 0) as [_|?]; [reflexivity|lia].
  - intros Hoff. rewrite seek_nonneg by exact Hoff. cbn [mbind outcome_bind].
    rewrite nextsymb_fold.
    rewrite foldr_min_bounded by (apply higher_functions_bounded; exact Hvals).
    fold (boundary (symbols c) (SymentHdr.value sym)).
    destruct (boundary_range _ (SymentHdr.value sym) Hvals) as [Hb _]; [lia|].
    split; [lia|].
    rewrite read_nonneg by lia. unfold rest. cbn [data pos]. rewrite Hdata.
    eexists _, _. split; [reflexivity|]. split; [reflexivity|].
    rewrite length_take. reflexivity.
Qed.

Lemma symboldata_unchecked_span_witness :
  ∃ (sym : SymentHdr.t) (sec : SecHdr.t),
    Coff_init 400 (File sample_coff 0) = Ok sample_container
    ∧ symbols sample_container !! 4%nat = Some sym
    ∧ sechdr sample_container !! 1%nat = Some sec
    ∧ SecHdr.vaddr sec + SecHdr.size sec ≤ 0x2030
    ∧ symboldata sample_container sym
      = Ok (take 4 (drop 186 sample_coff), File sample_coff 190).
Proof.
  do 2 eexists. split; [vm_compute; reflexivity|].
  split; [vm_compute; reflexivity|].
  split; [vm_compute; reflexivity|].
  split; [vm_compute; discriminate|].
  match goal with
  | |- symboldata _ ?sym = _ =>
      edestruct (symboldata_unchecked_span 400 (File sample_coff 0)
                   sample_container sym) as [_ Hok]
  end.
  - vm_compute. reflexivity.
  - apply list_elem_of_lookup. exists 4%nat. vm_compute. reflexivity.
  - vm_compute. discriminate.
  - vm_compute. reflexivity.
  - destruct Hok as (_ & d & f' & -> & -> & ->); [vm_compute; discriminate|].
    vm_compute. reflexivity.
Defined.

(** ** Placeholder names *)






(** ** Files with fewer than two sections *)

(** X9: on a file with fewer than two section headers the script writes
    nothing.  With no function symbol selected it ends at once; otherwise
    it prints the line of the first one, opens (and so creates or empties)
    its file and dies with [IndexError] in [symboldata], since every
    selected symbol names section 2; or it dies with the exception of that
    first [open]. *)
Theorem driver_needs_two_sections (fs : bytes → bool) (contents : bytes)
    (coff : Coff) :
  Coff_open contents = Ok coff → (length (sechdr coff) < 2)%nat →
  (select (symbols coff) = [] → parsecoff fs contents = ([], Ok ()))
  ∧ (∀ (s : SymentHdr.t) (more : list SymentHdr.t) (n : bytes),
       select (symbols coff) = s :: more →
       names_from (strings coff) 1 (select (symbols coff)) !! 0%nat = Some n →
       (open_w fs (lit "func/" ++ n) = Ok () →
        parsecoff fs contents
        = ([EvPrint (lit "Doing symbol " ++ n); EvOpen (lit "func/" ++ n)],
           Raise IndexError))
       ∧ (∀ e : exn,
            open_w fs (lit "func/" ++ n) = Raise e →
            parsecoff fs contents
            = ([EvPrint (lit "Doing symbol " ++ n)], Raise e))).
Proof.
  intros Hopen Hlen. unfold parsecoff. rewrite Hopen.
  split; [intros ->; reflexivity|].
  intros s more n Hsel Hn. rewrite Hsel in Hn |- *.
  assert (s ∈ select (symbols coff)) as [Hs [_ Hscn]]%select_elem_of
    by (rewrite Hsel; left).
  pose proof (parsed_symbol_names _ _ _ _ Hopen Hs) as Hname.
  destruct (resolve_name_Ok (strings coff) s Hname) as [o Ho].
  assert (symboldata coff s = Raise IndexError) as Hdata.
  { unfold symboldata. rewrite Hscn.
    rewrite (proj2 (getitem_IndexError (sechdr coff) (2 - 1))) by lia.
    reflexivity. }
  cbn [names_from imap lookup list_lookup] in Hn.
  unfold names_from in Hn. cbn in Hn. unfold name_at in Hn.
  rewrite Ho in Hn. rewrite filter_nil in Hn. cbn [length] in Hn.
  change (1 + Z.of_nat 0) with 1 in Hn.
  cbn [extract_loop]. rewrite Ho.
  destruct o as [n0|]; injection Hn as <-; cbv beta iota zeta.
  - split; [intros ->|intros e ->]; [rewrite Hdata|]; reflexivity.
  - split; [intros ->|intros e ->]; [rewrite Hdata|]; reflexivity.
Qed.

Lemma driver_needs_two_sections_witness :
  ∃ coff : Coff,
    Coff_open sample_one_section = Ok coff ∧ length (sechdr coff) = 1%nat
    ∧ SymentHdr.name <$> select (symbols coff) = [Ok (Some (lit "f"))]
    ∧ parsecoff (λ _, true) sample_one_section
      = ([EvPrint (lit "Doing symbol f"); EvOpen (lit "func/f")],
         Raise IndexError)
    ∧ parsecoff (λ _, false) sample_one_section
      = ([EvPrint (lit "Doing symbol f")], Raise IOError).
Proof.
  eexists. split; [vm_compute; reflexivity|].
  split; [reflexivity|]. split; [vm_compute; reflexivity|].
  split.
  - eapply (driver_needs_two_sections (λ _, true) sample_one_section);
      [vm_compute; reflexivity|vm_compute; lia|vm_compute; reflexivity
      |vm_compute; reflexivity|vm_compute; reflexivity].
  - eapply (driver_needs_two_sections (λ _, false) sample_one_section);
      [vm_compute; reflexivity|vm_compute; lia|vm_compute; reflexivity
      |vm_compute; reflexivity|vm_compute; reflexivity].
Defined.

(** ** [extractcoff.py] beyond the magic *)

Lemma getitem_cases {A : Type} (l : list A) (i : Z) :
  0 ≤ i →
  (∃ x, getitem l i = Ok x ∧ l !! Z.to_nat i = Some x)
  ∨ (getitem l i = Raise IndexError ∧ (length l ≤ Z.to_nat i)%nat).
Proof.
  intros Hi. unfold getitem.
  destruct (Z.ltb_spec i 0) as [?|_]; [lia|].
  destruct (Z.ltb_spec i 0) as [?|_]; [lia|].
  destruct (l !! Z.to_nat i) as [x|] eqn:Hx.
  - left. eauto.
  - right. split; [reflexivity|]. apply lookup_ge_None. exact Hx.
Qed.

Lemma version_parts_eq (header : bytes) :
  version_parts header [60; 61; 62; 63] =
    if decide (64 ≤ length header)%nat
    then Ok (ord_str <$> take 4 (drop 60 header))
    else Raise IndexError.
Proof.
  cbn [version_parts mbind].
  destruct (getitem_cases header 60 ltac:(lia)) as [(a & -> & Ha)|[-> Hl]];
    [|rewrite decide_False by (change (Z.to_nat 60) with 60%nat in Hl; lia);
      reflexivity].
  destruct (getitem_cases header 61 ltac:(lia)) as [(b & -> & Hb)|[-> Hl]];
    [|rewrite decide_False by (change (Z.to_nat 61) with 61%nat in Hl; lia);
      reflexivity].
  destruct (getitem_cases header 62 ltac:(lia)) as [(c & -> & Hc)|[-> Hl]];
    [|rewrite decide_False by (change (Z.to_nat 62) with 62%nat in Hl; lia);
      reflexivity].
  destruct (getitem_cases header 63 ltac:(lia)) as [(d & -> & Hd)|[-> Hl]];
    [|rewrite decide_False by (change (Z.to_nat 63) with 63%nat in Hl; lia);
      reflexivity].
  change (Z.to_nat 60) with (60 + 0)%nat in Ha.
  change (Z.to_nat 61) with (60 + 1)%nat in Hb.
  change (Z.to_nat 62) with (60 + 2)%nat in Hc.
  change (Z.to_nat 63) with (60 + 3)%nat in Hd.
  pose proof (lookup_lt_Some _ _ _ Hd) as Hlen.
  rewrite decide_True by lia.
  rewrite <- lookup_drop in Ha, Hb, Hc, Hd.
  destruct (drop 60 header) as [|a' [|b' [|c' [|d' r]]]]; try discriminate.
  cbn in Ha, Hb, Hc, Hd. simplify_eq. reflexivity.
Qed.

(** X10: a file that starts with the magic and holds at least 64 bytes is
    accepted: the script prints the name (bytes 44..58 without the NUL
    bytes at both ends), the four version bytes 60..63 in decimal joined by
    dots and the description (bytes 64..95, stripped likewise), writes
    everything after the first 128 bytes to the output (nothing when the
    file is shorter) and ends with status 0.  Both files are taken to open. *)
Theorem extractcoff_accepts (contents : bytes) :
  take 4 contents = lit "MTCH" → (64 ≤ length contents)%nat →
  extractcoff contents =
    Run [lit "Module name: " ++ strip0 (take 15 (drop 44 contents));
         lit "Module version: "
           ++ join_dot (ord_str <$> take 4 (drop 60 contents));
         lit "Module description: " ++ strip0 (take 32 (drop 64 contents))]
        (Some (drop 128 contents)) (Exited 0).
Proof.
  intros Hmagic Hlen. unfold extractcoff.
  rewrite (read_nat 128). unfold rest. cbn [data pos]. rewrite drop_0.
  rewrite take_take. change (4 `min` 128)%nat with 4%nat.
  rewrite decide_False by (intros Hne; apply Hne; exact Hmagic).
  rewrite version_parts_eq.
  rewrite decide_True by (rewrite length_take; lia).
  unfold slice. change (59 - 44)%nat with 15%nat. change (96 - 64)%nat with 32%nat.
  rewrite !(take_drop_take _ _ 128) by lia.
  unfold read. cbn [Z.ltb Z.compare orb]. unfold rest. cbn [data pos].
  change (0 + ?n)%nat with n.
  f_equal. f_equal.
  destruct (Nat.le_gt_cases 128 (length contents)) as [Hge|Hlt].
  - rewrite Nat.min_l by lia. reflexivity.
  - rewrite Nat.min_r by lia. rewrite !drop_ge by lia. reflexivity.
Qed.

Lemma extractcoff_accepts_witness :
  take 4 sample_module = lit "MTCH" ∧ (64 ≤ length sample_module)%nat
  ∧ extractcoff sample_module =
      Run [lit "Module name: demo"; lit "Module version: 1.2.3.10";
           lit "Module description: a test module"]
          (Some (lit "payload")) (Exited 0).
Proof.
  split; [reflexivity|]. split; [vm_compute; lia|].
  rewrite (extractcoff_accepts sample_module);
    [vm_compute; reflexivity|reflexivity|vm_compute; lia].
Defined.

(** X11: a file that starts with the magic but holds fewer than 64 bytes
    makes the script print the name line alone and die with [IndexError]
    on a version byte, before the output file is opened. *)
Theorem extractcoff_short_header (contents : bytes) :
  take 4 contents = lit "MTCH" → (length contents < 64)%nat →
  extractcoff contents =
    Run [lit "Module name: " ++ strip0 (take 15 (drop 44 contents))]
        None (Uncaught IndexError).
Proof.
  intros Hmagic Hlen. unfold extractcoff.
  rewrite (read_nat 128). unfold rest. cbn [data pos]. rewrite drop_0.
  rewrite take_take. change (4 `min` 128)%nat with 4%nat.
  rewrite decide_False by (intros Hne; apply Hne; exact Hmagic).
  rewrite version_parts_eq.
  rewrite decide_False by (rewrite length_take; lia).
  unfold slice. change (59 - 44)%nat with 15%nat.
  rewrite !(take_drop_take _ _ 128) by lia. reflexivity.
Qed.

Lemma extractcoff_short_header_witness :
  take 4 (take 63 sample_module) = lit "MTCH"
  ∧ (length (take 63 sample_module) < 64)%nat
  ∧ extractcoff (take 63 sample_module) =
      Run [lit "Module name: demo"] None (Uncaught IndexError).
Proof.
  split; [reflexivity|]. split; [vm_compute; lia|].
  rewrite (extractcoff_short_header (take 63 sample_module));
    [vm_compute; reflexivity|reflexivity|vm_compute; lia].
Defined.
